(** * Backtesting engine: a shallow embedding of [backtesting_engine.py]

    The engine replays a price series through a rule-based strategy, keeps
    a position flag, a trade ledger and an equity curve, and derives
    performance metrics.

    Numbers.  The source computes with IEEE doubles (pandas / numpy).  Finite
    values are modelled by exact rationals [Q]; the special values that the
    code can produce and that change its control flow (NaN during indicator
    warm-up, infinities from a division by zero) are modelled by [fval].
    Rounding of finite values, overflow to an infinity and the sign of zero
    are not modelled: statements are read up to the rounding of doubles.
    Where rounding changes what the code does, the block is given a second
    time in double arithmetic, in [Doubles]. *)

From Stdlib Require Import ZArith QArith Qabs Qround List String Bool Lia Psatz.
From Stdlib Require Import Reals.
From Stdlib Require Floats.
Import ListNotations.

Local Open Scope Q_scope.

(** ** Numbers *)

Definition Qlt_bool (x y : Q) : bool := negb (Qle_bool y x).

(** Python's [int(x)] on a finite float: truncation toward zero. *)
Definition py_int (x : Q) : Z := Z.quot (Qnum x) (Zpos (Qden x)).

(** A double: a finite value, an infinity or NaN. *)
Inductive fval : Type :=
| Fin (q : Q)
| PInf
| NInf
| NaN.

(** Comparisons: every comparison with NaN is false. *)
Definition flt (a b : fval) : bool :=
  match a, b with
  | Fin x, Fin y => Qlt_bool x y
  | Fin _, PInf => true
  | NInf, Fin _ => true
  | NInf, PInf => true
  | _, _ => false
  end.

Definition fle (a b : fval) : bool :=
  match a, b with
  | Fin x, Fin y => Qle_bool x y
  | Fin _, PInf => true
  | NInf, Fin _ => true
  | NInf, PInf => true
  | PInf, PInf => true
  | NInf, NInf => true
  | _, _ => false
  end.

Definition fgt (a b : fval) : bool := flt b a.
Definition fge (a b : fval) : bool := fle b a.

Definition fopp (a : fval) : fval :=
  match a with
  | Fin x => Fin (- x)
  | PInf => NInf
  | NInf => PInf
  | NaN => NaN
  end.

Definition fadd (a b : fval) : fval :=
  match a, b with
  | NaN, _ => NaN
  | _, NaN => NaN
  | Fin x, Fin y => Fin (x + y)
  | PInf, NInf => NaN
  | NInf, PInf => NaN
  | PInf, _ => PInf
  | _, PInf => PInf
  | NInf, _ => NInf
  | _, NInf => NInf
  end.

Definition fsub (a b : fval) : fval := fadd a (fopp b).

(** The infinity with the sign of [x], NaN when [x] is zero. *)
Definition inf_of_sign (x : Q) : fval :=
  if Qlt_bool 0 x then PInf else if Qlt_bool x 0 then NInf else NaN.

Definition fmul (a b : fval) : fval :=
  match a, b with
  | NaN, _ => NaN
  | _, NaN => NaN
  | Fin x, Fin y => Fin (x * y)
  | Fin x, PInf => inf_of_sign x
  | PInf, Fin x => inf_of_sign x
  | Fin x, NInf => fopp (inf_of_sign x)
  | NInf, Fin x => fopp (inf_of_sign x)
  | PInf, PInf => PInf
  | NInf, NInf => PInf
  | PInf, NInf => NInf
  | NInf, PInf => NInf
  end.

(** Division of doubles as numpy does it: a finite non-zero value over zero
    is an infinity, zero over zero is NaN, nothing is raised. *)
Definition fdiv (a b : fval) : fval :=
  match a, b with
  | NaN, _ => NaN
  | _, NaN => NaN
  | Fin x, Fin y => if Qeq_bool y 0 then inf_of_sign x else Fin (x / y)
  | Fin _, PInf => Fin 0
  | Fin _, NInf => Fin 0
  | PInf, Fin y => if Qlt_bool y 0 then NInf else PInf
  | NInf, Fin y => if Qlt_bool y 0 then PInf else NInf
  | _, _ => NaN
  end.

(** ** Data model *)

(** One row of [self.data] as [run_strategy] reads it: the bar's timestamp
    and close, and the indicator columns that [load_data] added. The close
    is a finite number: a frame with a NaN close, on which [int] raises
    ValueError, is not a value of this type, and no statement below covers
    it. *)
Record Row : Type := mkRow {
  Date : nat;
  Close : Q;
  MA20 : fval;
  MA50 : fval;
  RSI : fval;
  MACD : fval;
  MACD_signal : fval;
  BB_middle : fval;
  BB_upper : fval;
  BB_lower : fval
}.

Inductive Side : Type := BUY | SELL.

Definition Side_eqb (a b : Side) : bool :=
  match a, b with
  | BUY, BUY => true
  | SELL, SELL => true
  | _, _ => false
  end.

(** A ledger entry; [profit] and [profit_pct] exist on SELL entries only. *)
Record Trade : Type := mkTrade {
  t_date : nat;
  t_type : Side;
  t_price : Q;
  t_shares : Z;
  t_value : Q;
  t_profit : option Q;
  t_profit_pct : option Q;
  t_capital : Q
}.

Record EquityPoint : Type := mkEquityPoint {
  e_date : nat;
  e_equity : Q;
  e_position : Z
}.

(** The fields of a [BacktestingEngine] instance that the engine uses, once
    the data is loaded. *)
Record Engine : Type := mkEngine {
  initial_capital : Q;
  data : list Row;
  trades : list Trade;
  equity_curve : list EquityPoint
}.

(** [BacktestingEngine.__init__] followed by a successful [load_data]. *)
Definition new_engine (cap : Q) (rows : list Row) : Engine :=
  {| initial_capital := cap; data := rows; trades := []; equity_curve := [] |}.

(** The local variables of [run_strategy]; [position] is 0 (no position)
    or 1 (long). *)
Record Locals : Type := mkLocals {
  position : Z;
  entry_price : Q;
  shares : Z;
  capital : Q;
  equity : Q
}.

Inductive exn : Type :=
| OverflowError
| KeyError
| IndexError
| ValueError.

Inductive Result (A : Type) : Type :=
| Ok (a : A)
| Raise (e : exn).

Arguments Ok {A} a.
Arguments Raise {A} e.

Definition bind {A B : Type} (m : Result A) (f : A -> Result B) : Result B :=
  match m with
  | Ok a => f a
  | Raise e => Raise e
  end.

(** The keyword arguments [**params]. *)
Definition Params : Type := list (string * Q).

(** [params.get(key, default)]. *)
Fixpoint params_get (params : Params) (key : string) (default : Q) : Q :=
  match params with
  | [] => default
  | (k, v) :: rest => if String.eqb k key then v else params_get rest key default
  end.

(** ** run_strategy *)

(** The strategy logic of one loop iteration: [(buy_signal, sell_signal)]
    from the previous and the current row. A name that matches none of the
    four branches leaves both signals False. *)
Definition signals (strategy_name : string) (params : Params)
    (prev cur : Row) (position : Z) : bool * bool :=
  if String.eqb strategy_name "MA_CROSSOVER" then
    let short_ma := params_get params "short_ma" 20 in
    let long_ma := params_get params "long_ma" 50 in
    let prev_short := if Qeq_bool short_ma 20 then MA20 prev else MA50 prev in
    let curr_short := if Qeq_bool short_ma 20 then MA20 cur else MA50 cur in
    let prev_long := MA50 prev in
    let curr_long := MA50 cur in
    if fle prev_short prev_long && fgt curr_short curr_long && (position =? 0)%Z
    then (true, false)
    else if fge prev_short prev_long && flt curr_short curr_long && (position =? 1)%Z
    then (false, true)
    else (false, false)
  else if String.eqb strategy_name "RSI_OVERSOLD" then
    let rsi := RSI cur in
    let oversold := params_get params "oversold" 30 in
    let overbought := params_get params "overbought" 70 in
    if flt rsi (Fin oversold) && (position =? 0)%Z then (true, false)
    else if fgt rsi (Fin overbought) && (position =? 1)%Z then (false, true)
    else (false, false)
  else if String.eqb strategy_name "MACD_CROSSOVER" then
    let prev_macd := MACD prev in
    let curr_macd := MACD cur in
    let prev_signal := MACD_signal prev in
    let curr_signal := MACD_signal cur in
    if fle prev_macd prev_signal && fgt curr_macd curr_signal && (position =? 0)%Z
    then (true, false)
    else if fge prev_macd prev_signal && flt curr_macd curr_signal && (position =? 1)%Z
    then (false, true)
    else (false, false)
  else if String.eqb strategy_name "BOLLINGER_BANDS" then
    let price := Fin (Close cur) in
    if fle price (BB_lower cur) && (position =? 0)%Z then (true, false)
    else if fge price (BB_upper cur) && (position =? 1)%Z then (false, true)
    else (false, false)
  else (false, false).

Definition append_trade (self : Engine) (t : Trade) : Engine :=
  {| initial_capital := initial_capital self; data := data self;
     trades := trades self ++ [t]; equity_curve := equity_curve self |}.

Definition append_equity (self : Engine) (p : EquityPoint) : Engine :=
  {| initial_capital := initial_capital self; data := data self;
     trades := trades self; equity_curve := equity_curve self ++ [p] |}.

Definition reset_trades (self : Engine) : Engine :=
  {| initial_capital := initial_capital self; data := data self;
     trades := []; equity_curve := equity_curve self |}.

(** "Execute trades": the body of the loop between the strategy logic and
    the equity update. [capital / price] with a zero price is an infinity,
    and [int] of an infinity raises OverflowError. Quotient, product, sum
    and difference are exact here; [Doubles.buy_block] is the BUY block
    with the doubles of the source, whose quotient can round up to the
    next integer. *)
Definition execute (buy_signal sell_signal : bool) (date : nat) (price : Q)
    (self : Engine) (l : Locals) : Result (Engine * Locals) :=
  if buy_signal && Qlt_bool 0 (capital l) then
    if Qeq_bool price 0 then Raise OverflowError
    else
      let shares' := py_int (capital l / price) in
      if (shares' >? 0)%Z then
        let cost := inject_Z shares' * price in
        let capital' := capital l - cost in
        Ok (append_trade self
              {| t_date := date; t_type := BUY; t_price := price;
                 t_shares := shares'; t_value := cost; t_profit := None;
                 t_profit_pct := None; t_capital := capital' |},
            {| position := 1; entry_price := price; shares := shares';
               capital := capital'; equity := equity l |})
      else
        Ok (self,
            {| position := position l; entry_price := entry_price l;
               shares := shares'; capital := capital l; equity := equity l |})
  else if sell_signal && (position l =? 1)%Z then
    let proceeds := inject_Z (shares l) * price in
    let profit := proceeds - inject_Z (shares l) * entry_price l in
    let profit_pct := (profit / (inject_Z (shares l) * entry_price l)) * 100 in
    let capital' := capital l + proceeds in
    Ok (append_trade self
          {| t_date := date; t_type := SELL; t_price := price;
             t_shares := shares l; t_value := proceeds;
             t_profit := Some profit; t_profit_pct := Some profit_pct;
             t_capital := capital' |},
        {| position := 0; entry_price := entry_price l; shares := 0;
           capital := capital'; equity := equity l |})
  else Ok (self, l).

(** One iteration of [for i in range(1, len(self.data))]: [prev] is row
    [i-1], [cur] is row [i]. *)
Definition step (strategy_name : string) (params : Params) (prev cur : Row)
    (st : Engine * Locals) : Result (Engine * Locals) :=
  let date := Date cur in
  let price := Close cur in
  let sig := signals strategy_name params prev cur (position (snd st)) in
  bind (execute (fst sig) (snd sig) date price (fst st) (snd st))
    (fun st1 =>
       let l1 := snd st1 in
       let equity' :=
         if (position l1 =? 1)%Z then capital l1 + inject_Z (shares l1) * price
         else capital l1 in
       Ok (append_equity (fst st1)
             {| e_date := date; e_equity := equity'; e_position := position l1 |},
           {| position := position l1; entry_price := entry_price l1;
              shares := shares l1; capital := capital l1; equity := equity' |})).

(** The bar walk from row 1 on; [prev] is the row before [rest]. *)
Fixpoint walk (strategy_name : string) (params : Params) (prev : Row)
    (rest : list Row) (st : Engine * Locals) : Result (Engine * Locals) :=
  match rest with
  | [] => Ok st
  | cur :: rest' =>
      bind (step strategy_name params prev cur st)
        (walk strategy_name params cur rest')
  end.

(** The whole loop: nothing is done for row 0 (and nothing at all on an
    empty frame). *)
Definition walk_bars (strategy_name : string) (params : Params)
    (rows : list Row) (st : Engine * Locals) : Result (Engine * Locals) :=
  match rows with
  | [] => Ok st
  | first :: rest => walk strategy_name params first rest st
  end.

(** "Close any open positions at the end": appends the SELL and credits
    the cash; [position] and [shares] are left as they are. *)
Definition close_open_positions (st : Engine * Locals) : Engine * Locals :=
  let self := fst st in
  let l := snd st in
  if (position l =? 1)%Z then
    let final_price := last (map Close (data self)) 0 in
    let proceeds := inject_Z (shares l) * final_price in
    let profit := proceeds - inject_Z (shares l) * entry_price l in
    let profit_pct := (profit / (inject_Z (shares l) * entry_price l)) * 100 in
    let capital' := capital l + proceeds in
    (append_trade self
       {| t_date := last (map Date (data self)) 0%nat; t_type := SELL;
          t_price := final_price; t_shares := shares l; t_value := proceeds;
          t_profit := Some profit; t_profit_pct := Some profit_pct;
          t_capital := capital' |},
     {| position := position l; entry_price := entry_price l;
        shares := shares l; capital := capital'; equity := equity l |})
  else st.

(** The state in which the bar walk starts: the "Reset" block. *)
Definition reset (self : Engine) : Engine * Locals :=
  (reset_trades self,
   {| position := 0; entry_price := 0; shares := 0;
      capital := initial_capital self; equity := initial_capital self |}).

(** The engine and the local variables when the bar walk has ended. *)
Definition run_walk (self : Engine) (strategy_name : string)
    (params : Params) : Result (Engine * Locals) :=
  walk_bars strategy_name params (data self) (reset self).

(** The engine and the local variables at the [return] of [run_strategy]. *)
Definition run_frame (self : Engine) (strategy_name : string)
    (params : Params) : Result (Engine * Locals) :=
  bind (run_walk self strategy_name params)
    (fun st => Ok (close_open_positions st)).

(** [run_strategy] on an engine with loaded data: the engine after the
    call; the returned pair is [(trades, equity_curve)] of that engine. *)
Definition run_strategy (self : Engine) (strategy_name : string)
    (params : Params) : Result Engine :=
  bind (run_frame self strategy_name params) (fun st => Ok (fst st)).

Definition returned (self : Engine) : list Trade * list EquityPoint :=
  (trades self, equity_curve self).

(** ** Indicator pipeline: load_data *)

Definition Qsum (xs : list Q) : Q := fold_right Qplus 0 xs.

Definition Qnat (n : nat) : Q := inject_Z (Z.of_nat n).

(** The [w] entries that end at index [i]. *)
Definition window {A : Type} (w : nat) (xs : list A) (i : nat) : list A :=
  firstn w (skipn (i + 1 - w) xs).

(** [xs.rolling(window=w).mean()] on a column without NaN: NaN until [w]
    observations are available, then the mean of the trailing [w]. *)
Definition rolling_mean (w : nat) (xs : list Q) : list fval :=
  map (fun i => if (i + 1 <? w)%nat then NaN
                else Fin (Qsum (window w xs i) / Qnat w))
      (seq 0 (List.length xs)).

Fixpoint ewm_from (a prev : Q) (xs : list Q) : list Q :=
  match xs with
  | [] => []
  | x :: rest => let y := (1 - a) * prev + a * x in y :: ewm_from a y rest
  end.

(** [xs.ewm(span=span, adjust=False).mean()]. *)
Definition ewm_mean (span : Q) (xs : list Q) : list Q :=
  match xs with
  | [] => []
  | x :: rest => x :: ewm_from (2 / (span + 1)) x rest
  end.

Fixpoint diff_from (prev : Q) (xs : list Q) : list (option Q) :=
  match xs with
  | [] => []
  | x :: rest => Some (x - prev) :: diff_from x rest
  end.

(** [prices.diff()]: the first entry is NaN ([None]). *)
Definition diff (prices : list Q) : list (option Q) :=
  match prices with
  | [] => []
  | p :: rest => None :: diff_from p rest
  end.

(** [delta.where(cond, 0)]: the entry where [cond] holds, 0 elsewhere; a
    comparison with NaN is false, so the NaN entry becomes 0. *)
Definition where_or_0 (cond : Q -> bool) (d : option Q) : Q :=
  match d with
  | Some x => if cond x then x else 0
  | None => 0
  end.

Definition gain_series (prices : list Q) : list Q :=
  map (where_or_0 (fun x => Qlt_bool 0 x)) (diff prices).

Definition loss_series (prices : list Q) : list Q :=
  map (fun d => - where_or_0 (fun x => Qlt_bool x 0) d) (diff prices).

(** The two averages of [_calculate_rsi]. *)
Definition avg_gain (prices : list Q) (period : nat) : list fval :=
  rolling_mean period (gain_series prices).

Definition avg_loss (prices : list Q) (period : nat) : list fval :=
  rolling_mean period (loss_series prices).

Fixpoint map2 {A B C : Type} (f : A -> B -> C) (xs : list A) (ys : list B) : list C :=
  match xs, ys with
  | x :: xs', y :: ys' => f x y :: map2 f xs' ys'
  | _, _ => []
  end.

Definition rsi_of_rs (rs : fval) : fval :=
  fsub (Fin 100) (fdiv (Fin 100) (fadd (Fin 1) rs)).

Definition _calculate_rsi (prices : list Q) (period : nat) : list fval :=
  let gain := avg_gain prices period in
  let loss := avg_loss prices period in
  let rs := map2 fdiv gain loss in
  map rsi_of_rs rs.

Definition macd_line (close : list Q) : list Q :=
  map2 Qminus (ewm_mean 12 close) (ewm_mean 26 close).

(** [load_data] after the download: [bars] are the timestamps and closes
    that the data source returned, [bb_std] is the column
    [Close.rolling(window=20).std()], a square root and so not a rational
    in general (NaN on the first 19 rows); see [RealStats] for it. *)
Definition load_data (bb_std : list fval) (bars : list (nat * Q)) : Result (list Row) :=
  match bars with
  | [] => Raise ValueError
  | _ :: _ =>
      let close := map snd bars in
      let ma20 := rolling_mean 20 close in
      let ma50 := rolling_mean 50 close in
      let rsi := _calculate_rsi close 14 in
      let macd := macd_line close in
      let macd_signal := ewm_mean 9 macd in
      Ok (map (fun i =>
                 let middle := nth i ma20 NaN in
                 let dev := fmul (nth i bb_std NaN) (Fin 2) in
                 {| Date := nth i (map fst bars) 0%nat;
                    Close := nth i close 0;
                    MA20 := nth i ma20 NaN;
                    MA50 := nth i ma50 NaN;
                    RSI := nth i rsi NaN;
                    MACD := Fin (nth i macd 0);
                    MACD_signal := Fin (nth i macd_signal 0);
                    BB_middle := middle;
                    BB_upper := fadd middle dev;
                    BB_lower := fsub middle dev |})
              (seq 0 (List.length bars)))
  end.

(** An engine on freshly loaded data. *)
Definition loaded_engine (cap : Q) (bb_std : list fval) (bars : list (nat * Q))
  : Result Engine :=
  bind (load_data bb_std bars) (fun rows => Ok (new_engine cap rows)).

(** ** calculate_metrics *)

(** The metrics that are rational functions of the ledger and the curve;
    the dict holds [Total_Return] under the two keys "Total Return" and
    "Total Return %". The Sharpe ratio needs square roots; it is
    [RealStats.sharpe_ratio]. *)
Record Metrics : Type := mkMetrics {
  Initial_Capital : Q;
  Final_Equity : Q;
  Total_Return : fval;
  Total_Trades : nat;
  Profitable_Trades : nat;
  Win_Rate : Q;
  Average_Profit : Q;
  Average_Profit_pct : Q;
  Max_Drawdown : fval;
  Buy_Hold_Return : fval;
  Alpha : fval
}.

Definition is_sell (t : Trade) : bool := Side_eqb (t_type t) SELL.

(** [profit > 0] on a row; a missing profit is NaN and compares false. *)
Definition profit_positive (t : Trade) : bool :=
  match t_profit t with
  | Some p => Qlt_bool 0 p
  | None => false
  end.

Definition opt_or_0 (o : option Q) : Q :=
  match o with
  | Some q => q
  | None => 0
  end.

Definition Qmean (xs : list Q) : Q := Qsum xs / Qnat (List.length xs).

Definition Qmax (x y : Q) : Q := if Qle_bool x y then y else x.

(** [equity_series.expanding().max()]. *)
Fixpoint running_max_from (m : Q) (xs : list Q) : list Q :=
  match xs with
  | [] => []
  | x :: rest => let m' := Qmax m x in m' :: running_max_from m' rest
  end.

Definition running_max (xs : list Q) : list Q :=
  match xs with
  | [] => []
  | x :: rest => x :: running_max_from x rest
  end.

(** [Series.min()], which skips NaN; NaN when nothing is left. *)
Fixpoint fmin_skipna (xs : list fval) : fval :=
  match xs with
  | [] => NaN
  | NaN :: rest => fmin_skipna rest
  | x :: rest =>
      match fmin_skipna rest with
      | NaN => x
      | m => if flt m x then m else x
      end
  end.

Definition pct (num den : Q) : fval := fmul (fdiv (Fin num) (Fin den)) (Fin 100).

(** [calculate_metrics]: [Ok None] is the empty dict. Subscripting the
    DataFrame of an empty ledger with ['type'] raises KeyError, the frame
    has no columns. *)
Definition calculate_metrics (self : Engine) : Result (option Metrics) :=
  match equity_curve self with
  | [] => Ok None
  | p0 :: ps =>
      let equity_series := map e_equity (p0 :: ps) in
      let final_equity := last equity_series 0 in
      let total_return :=
        pct (final_equity - initial_capital self) (initial_capital self) in
      match trades self with
      | [] => Raise KeyError
      | _ :: _ =>
          let sell_trades := filter is_sell (trades self) in
          let profitable_trades :=
            List.length (filter (fun t => is_sell t && profit_positive t) (trades self)) in
          let total_trades := List.length sell_trades in
          let win_rate :=
            if (0 <? total_trades)%nat
            then Qnat profitable_trades / Qnat total_trades * 100 else 0 in
          (* every SELL that [run_strategy] appends carries [profit] and
             [profit_pct]; on a hand-made ledger a missing one counts as 0
             here, where pandas skips it *)
          let avg_profit :=
            if (0 <? List.length sell_trades)%nat
            then Qmean (map (fun t => opt_or_0 (t_profit t)) sell_trades) else 0 in
          let avg_profit_pct :=
            if (0 <? List.length sell_trades)%nat
            then Qmean (map (fun t => opt_or_0 (t_profit_pct t)) sell_trades) else 0 in
          let drawdown :=
            map2 (fun e m => pct (e - m) m) equity_series (running_max equity_series) in
          let max_drawdown := fmin_skipna drawdown in
          match data self with
          | [] => Raise IndexError
          | r0 :: rs =>
              let first_close := Close r0 in
              let last_close := last (map Close (r0 :: rs)) 0 in
              let buy_hold_return := pct (last_close - first_close) first_close in
              Ok (Some
                    {| Initial_Capital := initial_capital self;
                       Final_Equity := final_equity;
                       Total_Return := total_return;
                       Total_Trades := total_trades;
                       Profitable_Trades := profitable_trades;
                       Win_Rate := win_rate;
                       Average_Profit := avg_profit;
                       Average_Profit_pct := avg_profit_pct;
                       Max_Drawdown := max_drawdown;
                       Buy_Hold_Return := buy_hold_return;
                       Alpha := fsub total_return buy_hold_return |})
          end
      end
  end.

(** ** Standard deviations: the Bollinger bands and the Sharpe ratio

    [Series.std()] is a square root, so this part is over the reals. As in
    pandas, the default is [ddof=1]: the sum of squared deviations is divided
    by [n - 1]. [None] is NaN. Equities are taken to be non-zero: on a zero
    equity [pct_change] gives an infinity or a NaN (which [dropna] drops),
    and neither is a real number; statements about [daily_returns] and
    [sharpe_ratio] are read for curves without a zero. *)
Module RealStats.

Local Open Scope R_scope.

Definition Rsum (xs : list R) : R := fold_right Rplus 0 xs.

Definition Rmean (xs : list R) : R := Rsum xs / INR (List.length xs).

Definition sum_sq_dev (xs : list R) : R :=
  Rsum (map (fun x => (x - Rmean xs) * (x - Rmean xs)) xs).

(** [std(ddof=ddof)] of at least [ddof + 1] observations. *)
Definition std_ddof (ddof : nat) (xs : list R) : R :=
  sqrt (sum_sq_dev xs / (INR (List.length xs) - INR ddof)).

(** [Series.std()]: [ddof] defaults to 1, and one observation gives NaN. *)
Definition series_std (xs : list R) : option R :=
  if (List.length xs <=? 1)%nat then None else Some (std_ddof 1 xs).

(** The population standard deviation, as the specification words it. *)
Definition spec_population_std (xs : list R) : R := std_ddof 0 xs.

(** [xs.rolling(window=w).<f>()]. *)
Definition rolling (w : nat) (f : list R -> option R) (xs : list R) : list (option R) :=
  map (fun i => if (i + 1 <? w)%nat then None else f (window w xs i))
      (seq 0 (List.length xs)).

Definition lift2 (f : R -> R -> R) (a b : option R) : option R :=
  match a, b with
  | Some x, Some y => Some (f x y)
  | _, _ => None
  end.

Definition bb_middle (close : list R) : list (option R) :=
  rolling 20 (fun win => Some (Rmean win)) close.

Definition bb_std (close : list R) : list (option R) :=
  rolling 20 series_std close.

Definition bb_upper (close : list R) : list (option R) :=
  map2 (lift2 Rplus) (bb_middle close)
       (map (fun s => lift2 Rmult s (Some 2)) (bb_std close)).

Definition bb_lower (close : list R) : list (option R) :=
  map2 (lift2 Rminus) (bb_middle close)
       (map (fun s => lift2 Rmult s (Some 2)) (bb_std close)).

Fixpoint pct_change_from (prev : R) (xs : list R) : list R :=
  match xs with
  | [] => []
  | x :: rest => (x - prev) / prev :: pct_change_from x rest
  end.

(** [equity_series.pct_change().dropna()]. *)
Definition daily_returns (equity_series : list R) : list R :=
  match equity_series with
  | [] => []
  | e :: rest => pct_change_from e rest
  end.

(** The "Sharpe ratio (simplified)" block. With a single return the
    standard deviation is NaN, [NaN != 0] holds and the ratio is NaN. *)
Definition sharpe_ratio (equity_series : list R) : option R :=
  let returns := daily_returns equity_series in
  match returns with
  | [] => Some 0
  | _ :: _ =>
      match series_std returns with
      | None => None
      | Some s =>
          if Req_dec_T s 0 then Some 0
          else Some (Rmean returns / s * sqrt 252)
      end
  end.

End RealStats.

(** ** The smoothing that the specification describes

    Wilder's recurrence between consecutive averages of a series [xs]:
    [avg[i+1] = (avg[i] * (p - 1) + xs[i+1]) / p]. *)
Definition spec_wilder_recurrence (p : nat) (xs : list Q) (avg : list fval) : Prop :=
  forall i a_prev a x,
    nth_error avg i = Some (Fin a_prev) ->
    nth_error avg (S i) = Some (Fin a) ->
    nth_error xs (S i) = Some x ->
    a == (a_prev * (Qnat p - 1) + x) / Qnat p.

(** ** Sample frames *)

(** Frames of fewer than 20 bars: the rolling standard deviation is NaN
    on every row. *)
Definition load_short (bars : list (nat * Q)) : Result (list Row) :=
  load_data (repeat NaN (List.length bars)) bars.

(** Two bars, the close rising from 100 to 110. *)
Definition bars_100_110 : list (nat * Q) := [(0%nat, 100); (1%nat, 110)].

Definition rows_100_110 : list Row :=
  match load_short bars_100_110 with
  | Ok rows => rows
  | Raise _ => []
  end.

(** The engine after MACD_CROSSOVER on the two bars with a capital of
    100000: bar 1 is a bullish crossover, 909 shares are bought at 110 and
    sold again at 110 by the close at the end of the run. *)
Definition after_100_110 : Engine :=
  {| initial_capital := 100000;
     data := rows_100_110;
     trades :=
       [{| t_date := 1; t_type := BUY; t_price := 110; t_shares := 909;
           t_value := 99990; t_profit := None; t_profit_pct := None;
           t_capital := 10 |};
        {| t_date := 1; t_type := SELL; t_price := 110; t_shares := 909;
           t_value := 99990; t_profit := Some 0;
           t_profit_pct := Some (0 # 99990); t_capital := 100000 |}];
     equity_curve := [{| e_date := 1; e_equity := 100000; e_position := 1 |}] |}.

(** The local variables at the [return] of that run. *)
Definition locals_after_100_110 : Locals :=
  {| position := 1; entry_price := 110; shares := 909; capital := 100000;
     equity := 100000 |}.

(** Fifteen bars at a constant close of 100. *)
Definition flat_prices : list Q := repeat 100 15.

(** Sixteen closes rising by one a bar: 1, 2, ..., 16. *)
Definition rising_prices : list Q :=
  map (fun n => inject_Z (Z.of_nat n)) (seq 1 16).

(** Twenty closes: nineteen at 1, then 21. *)
Definition closes_1_21 : list R := (repeat 1 19 ++ [21])%R.

(** Three equity values: 1, 2, 3. *)
Definition equity_1_2_3 : list R := [1; 2; 3]%R.

(** Two hand-made rows: bar 1 closes at 0 with an RSI of 10. *)
Definition rows_zero_close : list Row :=
  [{| Date := 0; Close := 100; MA20 := NaN; MA50 := NaN; RSI := NaN;
      MACD := Fin 0; MACD_signal := Fin 0; BB_middle := NaN; BB_upper := NaN;
      BB_lower := NaN |};
   {| Date := 1; Close := 0; MA20 := NaN; MA50 := NaN; RSI := Fin 10;
      MACD := Fin 0; MACD_signal := Fin 0; BB_middle := NaN; BB_upper := NaN;
      BB_lower := NaN |}].

(** Fifteen bars, dated 0 to 14, all closing at 100. *)
Definition flat_bars : list (nat * Q) := map (fun i => (i, 100)) (seq 0 15).

(** ** Reporting: plot_results, get_trade_list and the backtesting page *)

(** One trace of the figure: its legend name, the subplot row it is
    drawn in, and its x and y data. Colours and layout are left out. *)
Record Trace : Type := mkTrace {
  tr_name : string;
  tr_row : nat;
  tr_x : list nat;
  tr_y : list Q
}.

(** The figure of [plot_results]: its traces in the order in which they
    are added, and the height of the dashed initial-capital line. *)
Record Figure : Type := mkFigure {
  fig_traces : list Trace;
  fig_hline : Q
}.

Definition is_buy (t : Trade) : bool := Side_eqb (t_type t) BUY.

(** The marker trace of one side, added only when that side has rows. *)
Definition marker_trace (name : string) (rows : list Trade) : list Trace :=
  if (0 <? List.length rows)%nat
  then [{| tr_name := name; tr_row := 1; tr_x := map t_date rows;
           tr_y := map t_price rows |}]
  else [].

(** [plot_results]: [Ok None] is the [None] returned on an empty equity
    curve. As in [calculate_metrics], the DataFrame of an empty ledger has
    no ['type'] column. *)
Definition plot_results (self : Engine) : Result (option Figure) :=
  match equity_curve self with
  | [] => Ok None
  | _ :: _ =>
      let price_trace :=
        {| tr_name := "Price"; tr_row := 1; tr_x := map Date (data self);
           tr_y := map Close (data self) |} in
      match trades self with
      | [] => Raise KeyError
      | _ :: _ =>
          let buy_trades := filter is_buy (trades self) in
          let sell_trades := filter is_sell (trades self) in
          let equity_trace :=
            {| tr_name := "Equity"; tr_row := 2;
               tr_x := map e_date (equity_curve self);
               tr_y := map e_equity (equity_curve self) |} in
          Ok (Some
                {| fig_traces :=
                     [price_trace] ++ marker_trace "Buy" buy_trades
                     ++ marker_trace "Sell" sell_trades ++ [equity_trace];
                   fig_hline := initial_capital self |})
      end
  end.

(** [get_trade_list]: the rows of the ledger, the empty frame for an
    empty ledger. [Date] is a calendar day, so the conversion of the
    date column changes nothing. *)
Definition get_trade_list (self : Engine) : list Trade :=
  match trades self with
  | [] => []
  | t :: ts => t :: ts
  end.

(** What the backtesting page shows after "Run Backtest". *)
Inductive Page : Type :=
| BacktestError (e : exn)
| BacktestResults (metrics : Metrics) (fig : option Figure) (trade_list : list Trade).

(** The [try] block of [render_backtesting] in [app_ultimate.py]: load,
    run the selected strategy without parameters, compute the metrics,
    read the displayed keys from the dict (KeyError on the empty dict),
    plot, list the trades. Any exception ends in the error box. *)
Definition render_backtesting (initial_capital : Q) (bb_std : list fval)
    (bars : list (nat * Q)) (strategy : string) : Page :=
  let outcome :=
    bind (loaded_engine initial_capital bb_std bars) (fun engine0 =>
    bind (run_strategy engine0 strategy []) (fun engine =>
    bind (calculate_metrics engine) (fun metrics =>
    match metrics with
    | None => Raise KeyError
    | Some m =>
        bind (plot_results engine) (fun fig =>
        Ok (BacktestResults m fig (get_trade_list engine)))
    end))) in
  match outcome with
  | Ok page => page
  | Raise e => BacktestError e
  end.

(** ** The BUY block in double arithmetic

    [shares = int(capital / price)], [cost = shares * price] and
    [capital -= cost] with the IEEE doubles of the source, where [execute]
    above takes them as exact rationals. *)
Module Doubles.

Import Floats.
Local Open Scope float_scope.



(** The rational that a finite double stands for. *)
Definition to_Q (x : float) : Q :=
  match Prim2SF x with
  | S754_finite sign m e =>
      let q :=
        match e with
        | Z0 => inject_Z (Zpos m)
        | Zpos k => inject_Z (Z.shiftl (Zpos m) (Zpos k))
        | Zneg k => Qmake (Zpos m) (Pos.pow 2 k)
        end in
      if sign then Qopp q else q
  | _ => 0%Q
  end.


(** The double nearest to 5882.352941176471. *)
Definition close_5882 : float := 0x1.6fa5a5a5a5a5bp+12.




End Doubles.

(** ** Vocabulary of the statements *)

(** A valid bar series: every close is positive. *)
Definition valid_closes (rows : list Row) : Prop :=
  Forall (fun r => 0 < Close r) rows.

Definition known_strategy (strategy_name : string) : bool :=
  String.eqb strategy_name "MA_CROSSOVER"
  || String.eqb strategy_name "RSI_OVERSOLD"
  || String.eqb strategy_name "MACD_CROSSOVER"
  || String.eqb strategy_name "BOLLINGER_BANDS".

Definition count_side (s : Side) (ts : list Trade) : nat :=
  List.length (filter (fun t => Side_eqb (t_type t) s) ts).

(** Shares held according to a ledger: bought minus sold. *)
Fixpoint holdings (ts : list Trade) : Z :=
  match ts with
  | [] => 0
  | t :: rest =>
      match t_type t with
      | BUY => t_shares t + holdings rest
      | SELL => holdings rest - t_shares t
      end
  end%Z.

(** [s] sells what [b] bought: same share count, profit and profit
    percentage against the price of [b]. *)
Definition closes_buy (b s : Trade) : Prop :=
  t_type b = BUY /\ t_type s = SELL /\
  t_shares s = t_shares b /\
  t_value s = inject_Z (t_shares s) * t_price s /\
  t_profit s = Some (t_value s - inject_Z (t_shares b) * t_price b) /\
  t_profit_pct s =
    Some ((t_value s - inject_Z (t_shares b) * t_price b)
          / (inject_Z (t_shares b) * t_price b) * 100).

(** A ledger of BUY/SELL pairs. *)
Inductive paired : list Trade -> Prop :=
| paired_nil : paired []
| paired_cons b s rest : closes_buy b s -> paired rest -> paired (b :: s :: rest).

(** The engine with [c] in front of its equity curve. *)
Definition prepend_curve (c : list EquityPoint) (self : Engine) : Engine :=
  {| initial_capital := initial_capital self; data := data self;
     trades := trades self; equity_curve := c ++ equity_curve self |}.

(** The point that a bar contributes when nothing is ever traded. *)
Definition idle_point (cap : Q) (r : Row) : EquityPoint :=
  {| e_date := Date r; e_equity := cap; e_position := 0 |}.

(** The locals of a walk that never trades. *)
Definition idle_locals (c : Q) : Locals :=
  {| position := 0; entry_price := 0; shares := 0; capital := c; equity := c |}.

(** Flat with a ledger of pairs, or long with one BUY open at the end of
    the ledger, whose shares and price are the locals of the walk. *)
Definition ledger_inv (st : Engine * Locals) : Prop :=
  (position (snd st) = 0%Z /\ paired (trades (fst st))) \/
  (position (snd st) = 1%Z /\
   exists pre b,
     trades (fst st) = pre ++ [b] /\ paired pre /\
     t_type b = BUY /\ t_shares b = shares (snd st) /\
     t_price b = entry_price (snd st)).

(** The cash is non-negative, now and in every ledger entry, and a long
    position holds a positive number of shares. *)
Definition cash_inv (st : Engine * Locals) : Prop :=
  0 <= capital (snd st) /\
  (position (snd st) = 1%Z -> (0 < shares (snd st))%Z) /\
  Forall (fun t => 0 <= t_capital t) (trades (fst st)).

(** A long position holds a positive number of shares bought at a
    positive price, so the divisor of [profit_pct] is never zero. *)
Definition long_inv (l : Locals) : Prop :=
  position l = 1%Z -> (0 < shares l)%Z /\ 0 < entry_price l.

(** The sum of the realized profits of a ledger: the profits of its SELL
    entries. *)
Definition realized_profit (ts : list Trade) : Q :=
  Qsum (map (fun t => opt_or_0 (t_profit t)) (filter is_sell ts)).

(** The books of the walk: cash, plus the cost of the open position when
    long, is the initial capital plus the realized profits. *)
Definition accounts_inv (init : Q) (st : Engine * Locals) : Prop :=
  (position (snd st) = 1%Z /\
   capital (snd st) + inject_Z (shares (snd st)) * entry_price (snd st)
     == init + realized_profit (trades (fst st))) \/
  (position (snd st) = 0%Z /\
   capital (snd st) == init + realized_profit (trades (fst st))).

(** A row on which the strategy sets no signal, whatever the previous row
    and the position are. *)
Definition no_signal (strategy_name : string) (params : Params) (cur : Row) : Prop :=
  forall prev pos, signals strategy_name params prev cur pos = (false, false).

(** The engine after a run that never traded. *)
Definition idle_result (self : Engine) : Engine :=
  {| initial_capital := initial_capital self; data := data self;
     trades := [];
     equity_curve :=
       equity_curve self
       ++ map (idle_point (initial_capital self)) (tl (data self)) |}.

(** A double that is NaN or a finite value between [lo] and [hi]. *)
Definition nan_or_within (lo hi : Q) (v : fval) : Prop :=
  match v with
  | NaN => True
  | Fin q => lo <= q /\ q <= hi
  | _ => False
  end.

Definition within (lo hi : Q) (x : Q) : Prop := lo <= x /\ x <= hi.

(** A ledger entry with a positive share count and, on a BUY, a
    positive price and cost. *)
Definition fill_ok (t : Trade) : Prop :=
  (0 < t_shares t)%Z /\
  (t_type t = BUY -> 0 < t_price t /\ 0 < inject_Z (t_shares t) * t_price t).

(** A drawdown percentage: finite, at most 0 and at least -100. *)
Definition drawdown_ok (v : fval) : Prop :=
  exists d, v = Fin d /\ - (100) <= d /\ d <= 0.






(** * Properties *)

(** ** The strategy logic respects the position *)

Lemma signals_buy_flat s p prev cur pos :
  fst (signals s p prev cur pos) = true -> pos = 0%Z.
Proof.
  unfold signals.
  repeat match goal with
         | |- context [if ?c then _ else _] => destruct c eqn:?
         end; cbn [fst]; intros H; try discriminate H;
    repeat match goal with
           | E : (_ && _)%bool = true |- _ => apply andb_prop in E; destruct E
           end;
    apply Z.eqb_eq; assumption.
Qed.

Lemma signals_sell_long s p prev cur pos :
  snd (signals s p prev cur pos) = true -> pos = 1%Z.
Proof.
  unfold signals.
  repeat match goal with
         | |- context [if ?c then _ else _] => destruct c eqn:?
         end; cbn [snd]; intros H; try discriminate H;
    repeat match goal with
           | E : (_ && _)%bool = true |- _ => apply andb_prop in E; destruct E
           end;
    apply Z.eqb_eq; assumption.
Qed.

Lemma signals_unknown s p prev cur pos :
  known_strategy s = false -> signals s p prev cur pos = (false, false).
Proof.
  unfold known_strategy, signals. intros H.
  repeat (apply orb_false_elim in H; destruct H as [H ?]).
  repeat match goal with E : String.eqb _ _ = false |- _ => rewrite E; clear E end.
  reflexivity.
Qed.

(** ** What one bar does to the engine *)

Ltac break_ifs H :=
  repeat match type of H with
         | context [if ?c then _ else _] => destruct c eqn:?
         end.

Lemma execute_frame b s d price self l self' l' :
  execute b s d price self l = Ok (self', l') ->
  equity_curve self' = equity_curve self /\
  data self' = data self /\
  initial_capital self' = initial_capital self.
Proof.
  unfold execute. intros H. break_ifs H; inversion H; subst; auto.
Qed.

Lemma step_curve s p prev cur st st' :
  step s p prev cur st = Ok st' ->
  equity_curve (fst st') =
    equity_curve (fst st)
    ++ [{| e_date := Date cur; e_equity := equity (snd st');
           e_position := position (snd st') |}] /\
  data (fst st') = data (fst st) /\
  initial_capital (fst st') = initial_capital (fst st).
Proof.
  unfold step, bind. intros H.
  destruct (execute _ _ _ _ _ _) as [[self1 l1]|e] eqn:Hex; [|discriminate H].
  apply execute_frame in Hex. destruct Hex as (Hc & Hd & Hi).
  inversion H; subst; clear H. cbn [fst snd equity_curve data initial_capital
    append_equity position equity].
  rewrite Hc. auto.
Qed.

Lemma walk_curve_length s p rest : forall prev st st',
  walk s p prev rest st = Ok st' ->
  List.length (equity_curve (fst st')) =
    (List.length (equity_curve (fst st)) + List.length rest)%nat.
Proof.
  induction rest as [|cur rest IH]; intros prev st st' H.
  - inversion H; subst. cbn. lia.
  - cbn [walk] in H. unfold bind in H.
    destruct (step s p prev cur st) as [st1|e] eqn:Hs; [|discriminate H].
    apply IH in H. apply step_curve in Hs. destruct Hs as (Hc & _).
    rewrite H, Hc, length_app. cbn. lia.
Qed.

Lemma walk_frame s p rest : forall prev st st',
  walk s p prev rest st = Ok st' ->
  data (fst st') = data (fst st) /\
  initial_capital (fst st') = initial_capital (fst st).
Proof.
  induction rest as [|cur rest IH]; intros prev st st' H.
  - inversion H; subst. auto.
  - cbn [walk] in H. unfold bind in H.
    destruct (step s p prev cur st) as [st1|e] eqn:Hs; [|discriminate H].
    apply IH in H. apply step_curve in Hs. destruct Hs as (_ & Hd & Hi).
    destruct H as (Hd' & Hi'). split; congruence.
Qed.

(** ** Totality on valid bars *)

Lemma Qeq_bool_pos_false x : 0 < x -> Qeq_bool x 0 = false.
Proof.
  intros H. destruct (Qeq_bool x 0) eqn:E; [|reflexivity].
  apply Qeq_bool_iff in E. rewrite E in H. exfalso. revert H. apply Qlt_irrefl.
Qed.

Lemma execute_total b s d price self l :
  0 < price -> exists st', execute b s d price self l = Ok st'.
Proof.
  intros Hp. unfold execute. rewrite (Qeq_bool_pos_false _ Hp).
  repeat match goal with
         | |- context [if ?c then _ else _] => destruct c
         end; eexists; reflexivity.
Qed.

Lemma step_total s p prev cur st :
  0 < Close cur -> exists st', step s p prev cur st = Ok st'.
Proof.
  intros Hp. unfold step.
  destruct (execute_total (fst (signals s p prev cur (position (snd st))))
              (snd (signals s p prev cur (position (snd st))))
              (Date cur) (Close cur) (fst st) (snd st) Hp) as [st1 H1].
  rewrite H1. cbn [bind]. eexists; reflexivity.
Qed.

Lemma walk_total s p rest : forall prev st,
  valid_closes rest -> exists st', walk s p prev rest st = Ok st'.
Proof.
  induction rest as [|cur rest IH]; intros prev st Hv.
  - eexists; reflexivity.
  - inversion Hv as [|? ? Hc Hr]; subst.
    destruct (step_total s p prev cur st Hc) as [st1 H1].
    cbn [walk]. rewrite H1. cbn [bind]. apply IH. exact Hr.
Qed.

Lemma run_walk_total self s p :
  valid_closes (data self) -> exists st, run_walk self s p = Ok st.
Proof.
  intros Hv. unfold run_walk, walk_bars.
  destruct (data self) as [|first rest]; [eexists; reflexivity|].
  inversion Hv; subst. apply walk_total. assumption.
Qed.

Lemma run_strategy_total self s p :
  valid_closes (data self) -> exists eng', run_strategy self s p = Ok eng'.
Proof.
  intros Hv. destruct (run_walk_total self s p Hv) as [st H].
  unfold run_strategy, run_frame. rewrite H. cbn [bind]. eexists; reflexivity.
Qed.

Lemma close_open_positions_curve st :
  equity_curve (fst (close_open_positions st)) = equity_curve (fst st).
Proof.
  unfold close_open_positions. destruct (position (snd st) =? 1)%Z; reflexivity.
Qed.

Lemma run_strategy_inv self s p eng' :
  run_strategy self s p = Ok eng' ->
  exists st, run_walk self s p = Ok st /\ eng' = fst (close_open_positions st).
Proof.
  unfold run_strategy, run_frame, bind. intros H.
  destruct (run_walk self s p) as [st|e]; [|discriminate H].
  inversion H; subst. exists st. auto.
Qed.

Lemma run_walk_curve_length self s p st :
  run_walk self s p = Ok st ->
  List.length (equity_curve (fst st)) =
    (List.length (equity_curve self) + (List.length (data self) - 1))%nat.
Proof.
  unfold run_walk, walk_bars, reset. intros H.
  destruct (data self) as [|first rest].
  - inversion H; subst. cbn. lia.
  - apply walk_curve_length in H. rewrite H. cbn. lia.
Qed.

Lemma walk_curve_dates s p rest : forall prev st st',
  walk s p prev rest st = Ok st' ->
  map e_date (equity_curve (fst st')) =
    map e_date (equity_curve (fst st)) ++ map Date rest.
Proof.
  induction rest as [|cur rest IH]; intros prev st st' H.
  - inversion H; subst. cbn. now rewrite app_nil_r.
  - cbn [walk] in H. unfold bind in H.
    destruct (step s p prev cur st) as [st1|e] eqn:Hs; [|discriminate H].
    apply IH in H. apply step_curve in Hs. destruct Hs as (Hc & _).
    rewrite H, Hc, map_app, <- app_assoc. reflexivity.
Qed.

(** ** C2: the length of the equity curve *)

(** C2, as claimed, fails: on the two bars 100, 110 a fresh engine
    returns an equity curve of one point, not two. The loop starts at
    row 1, so row 0 never gets a point. *)
Lemma C2_two_bars_one_point :
  exists eng',
    run_strategy (new_engine 100000 rows_100_110) "MACD_CROSSOVER" [] = Ok eng' /\
    List.length (data eng') = 2%nat /\
    List.length (equity_curve eng') = 1%nat.
Proof.
  eexists. split; [cbv; reflexivity|]. split; reflexivity.
Qed.

(** C2, amended: on a freshly constructed engine and a valid series of N
    bars, [run_strategy] completes and the equity curve holds exactly
    N - 1 points, one per bar from the second bar to the final bar, in
    bar order. *)
Theorem C2_equity_curve_length self s p :
  valid_closes (data self) ->
  equity_curve self = [] ->
  exists eng',
    run_strategy self s p = Ok eng' /\
    List.length (equity_curve eng') = (List.length (data self) - 1)%nat /\
    map e_date (equity_curve eng') = map Date (tl (data self)).
Proof.
  intros Hv Hfresh.
  destruct (run_strategy_total self s p Hv) as [eng' Hrun].
  exists eng'. split; [exact Hrun|].
  apply run_strategy_inv in Hrun. destruct Hrun as (st & Hw & ->).
  rewrite close_open_positions_curve. split.
  - rewrite (run_walk_curve_length _ _ _ _ Hw), Hfresh. reflexivity.
  - unfold run_walk, walk_bars, reset in Hw.
    destruct (data self) as [|first rest].
    + inversion Hw; subst. cbn. now rewrite Hfresh.
    + apply walk_curve_dates in Hw. rewrite Hw. cbn. now rewrite Hfresh.
Qed.

Lemma valid_rows_100_110 : valid_closes rows_100_110.
Proof. repeat constructor. Qed.

(** C2 on the two bars 100, 110: one point, dated bar 1. *)
Lemma C2_equity_curve_length_witness :
  exists eng',
    run_strategy (new_engine 100000 rows_100_110) "MACD_CROSSOVER" [] = Ok eng' /\
    List.length (equity_curve eng') = 1%nat /\
    map e_date (equity_curve eng') = [1%nat].
Proof.
  apply (C2_equity_curve_length (new_engine 100000 rows_100_110)
           "MACD_CROSSOVER" []).
  - repeat constructor.
  - reflexivity.
Defined.

(** ** C8: a strategy name outside the four variants *)

Lemma walk_unknown s p rest : forall prev self c,
  known_strategy s = false ->
  walk s p prev rest (self, idle_locals c) =
    Ok ({| initial_capital := initial_capital self; data := data self;
           trades := trades self;
           equity_curve := equity_curve self ++ map (idle_point c) rest |},
        idle_locals c).
Proof.
  induction rest as [|cur rest IH]; intros prev self c Hs.
  - cbn. rewrite app_nil_r. destruct self; reflexivity.
  - cbn [walk]. unfold step. rewrite (signals_unknown _ _ _ _ _ Hs).
    cbn [fst snd execute andb bind position idle_locals capital Z.eqb
         entry_price shares].
    fold (idle_locals c).
    rewrite IH by exact Hs.
    cbn [append_equity initial_capital data trades equity_curve map].
    rewrite <- app_assoc. reflexivity.
Qed.

(** C8, as claimed, fails: the name "FOO" is none of the four, and the
    run returns a result, an empty ledger and a one-point curve. *)
Lemma C8_unknown_name_returns :
  run_strategy (new_engine 100000 rows_100_110) "FOO" [] =
    Ok {| initial_capital := 100000; data := rows_100_110; trades := [];
          equity_curve := [{| e_date := 1; e_equity := 100000; e_position := 0 |}] |}.
Proof. reflexivity. Qed.

(** C8, amended: with a strategy name that is not one of the four
    variants, [run_strategy] raises nothing, on any frame: no signal is
    ever set, the returned ledger is empty, and every bar after the first
    adds an equity point holding the initial capital and position 0. *)
Theorem C8_unknown_strategy_runs_idle self s p :
  known_strategy s = false ->
  run_strategy self s p =
    Ok {| initial_capital := initial_capital self; data := data self;
          trades := [];
          equity_curve :=
            equity_curve self
            ++ map (idle_point (initial_capital self)) (tl (data self)) |}.
Proof.
  intros Hs. unfold run_strategy, run_frame, run_walk, walk_bars, reset.
  fold (idle_locals (initial_capital self)).
  destruct (data self) as [|first rest] eqn:Hd.
  - cbn. rewrite app_nil_r. unfold reset_trades. rewrite Hd. reflexivity.
  - rewrite (walk_unknown s p rest first _ _ Hs). cbn. rewrite Hd. reflexivity.
Qed.

(** C8 on the two bars 100, 110 with the name "FOO". *)
Lemma C8_unknown_strategy_runs_idle_witness :
  run_strategy (new_engine 100000 rows_100_110) "FOO" [] =
    Ok {| initial_capital := 100000; data := rows_100_110; trades := [];
          equity_curve := [] ++ map (idle_point 100000) (tl rows_100_110) |}.
Proof.
  apply (C8_unknown_strategy_runs_idle (new_engine 100000 rows_100_110) "FOO" []).
  reflexivity.
Defined.

(** ** C3: running twice on one engine *)

Lemma execute_prepend c b s d price self l :
  execute b s d price (prepend_curve c self) l =
    bind (execute b s d price self l)
      (fun st => Ok (prepend_curve c (fst st), snd st)).
Proof.
  unfold execute.
  repeat match goal with
         | |- context [if ?c then _ else _] => destruct c
         end; reflexivity.
Qed.

Lemma step_prepend c s p prev cur self l :
  step s p prev cur (prepend_curve c self, l) =
    bind (step s p prev cur (self, l))
      (fun st => Ok (prepend_curve c (fst st), snd st)).
Proof.
  unfold step. cbn [fst snd]. rewrite execute_prepend.
  destruct (execute _ _ _ _ self l) as [[self1 l1]|e]; [|reflexivity].
  cbn [bind fst snd]. unfold append_equity, prepend_curve.
  cbn [initial_capital data trades equity_curve].
  rewrite <- app_assoc. reflexivity.
Qed.

Lemma walk_prepend c s p rest : forall prev self l,
  walk s p prev rest (prepend_curve c self, l) =
    bind (walk s p prev rest (self, l))
      (fun st => Ok (prepend_curve c (fst st), snd st)).
Proof.
  induction rest as [|cur rest IH]; intros prev self l.
  - reflexivity.
  - cbn [walk]. rewrite step_prepend.
    destruct (step s p prev cur (self, l)) as [[self1 l1]|e]; [|reflexivity].
    cbn [bind fst snd]. apply IH.
Qed.

Lemma close_open_positions_prepend c self l :
  close_open_positions (prepend_curve c self, l) =
    (prepend_curve c (fst (close_open_positions (self, l))),
     snd (close_open_positions (self, l))).
Proof.
  unfold close_open_positions. cbn [fst snd].
  destruct (position l =? 1)%Z; reflexivity.
Qed.

Lemma run_strategy_prepend c self s p :
  run_strategy (prepend_curve c self) s p =
    bind (run_strategy self s p) (fun e => Ok (prepend_curve c e)).
Proof.
  unfold run_strategy, run_frame, run_walk, walk_bars, reset.
  change (reset_trades (prepend_curve c self))
    with (prepend_curve c (reset_trades self)).
  change (data (prepend_curve c self)) with (data self).
  change (initial_capital (prepend_curve c self)) with (initial_capital self).
  destruct (data self) as [|first rest].
  - cbn [bind]. rewrite close_open_positions_prepend. reflexivity.
  - rewrite walk_prepend.
    destruct (walk s p first rest _) as [[self1 l1]|e]; [|reflexivity].
    cbn [bind]. rewrite close_open_positions_prepend. reflexivity.
Qed.

Lemma run_strategy_reset_trades self s p :
  run_strategy (reset_trades self) s p = run_strategy self s p.
Proof. reflexivity. Qed.

Lemma close_open_positions_frame st :
  data (fst (close_open_positions st)) = data (fst st) /\
  initial_capital (fst (close_open_positions st)) = initial_capital (fst st).
Proof.
  unfold close_open_positions. destruct (position (snd st) =? 1)%Z; auto.
Qed.

Lemma run_strategy_frame self s p eng' :
  run_strategy self s p = Ok eng' ->
  data eng' = data self /\ initial_capital eng' = initial_capital self.
Proof.
  intros H. apply run_strategy_inv in H. destruct H as (st & Hw & ->).
  destruct (close_open_positions_frame st) as (Hd & Hi). rewrite Hd, Hi.
  unfold run_walk, walk_bars, reset in Hw.
  destruct (data self) as [|first rest] eqn:E.
  - inversion Hw; subst. cbn. auto.
  - apply walk_frame in Hw. cbn in Hw. destruct Hw as (Hd' & Hi').
    rewrite Hd', Hi'. auto.
Qed.

(** What a second call on the same engine returns: the ledger of the
    first call again, and an equity curve that holds the points of the
    first call twice. Only [self.trades] is reset at the start of a run. *)
Lemma rerun_appends_curve self s p eng1 :
  equity_curve self = [] ->
  run_strategy self s p = Ok eng1 ->
  run_strategy eng1 s p = Ok (prepend_curve (equity_curve eng1) eng1).
Proof.
  intros Hfresh Hrun.
  destruct (run_strategy_frame _ _ _ _ Hrun) as (Hd & Hi).
  rewrite <- (run_strategy_reset_trades eng1).
  replace (reset_trades eng1)
    with (prepend_curve (equity_curve eng1) (reset_trades self)).
  - rewrite run_strategy_prepend, run_strategy_reset_trades, Hrun. reflexivity.
  - unfold prepend_curve, reset_trades.
    cbn [initial_capital data trades equity_curve].
    rewrite Hfresh, app_nil_r, Hd, Hi. reflexivity.
Qed.

(** C3: the code at the failing input. A fresh engine on the two bars
    100, 110 returns a one-point equity curve from the first call of
    [run_strategy] and a two-point curve from the second call with the
    same arguments; the ledgers of the two calls are equal. *)
Theorem C3_second_run_differs :
  exists eng1 eng2,
    run_strategy (new_engine 100000 rows_100_110) "MACD_CROSSOVER" [] = Ok eng1 /\
    run_strategy eng1 "MACD_CROSSOVER" [] = Ok eng2 /\
    trades eng2 = trades eng1 /\
    equity_curve eng2 = equity_curve eng1 ++ equity_curve eng1 /\
    equity_curve eng2 <> equity_curve eng1.
Proof.
  eexists. eexists.
  split; [cbv; reflexivity|].
  split; [cbv; reflexivity|].
  split; [reflexivity|]. split; [reflexivity|].
  cbn [equity_curve]. discriminate.
Qed.

(** ** The ledger invariant of the bar walk *)

Lemma paired_app l1 l2 : paired l1 -> paired l2 -> paired (l1 ++ l2).
Proof.
  intros H1 H2. induction H1 as [|b s rest Hc _ IH].
  - exact H2.
  - cbn. constructor; assumption.
Qed.

Lemma paired_snoc pre b s :
  paired pre -> closes_buy b s -> paired ((pre ++ [b]) ++ [s]).
Proof.
  intros Hp Hc. rewrite <- app_assoc. cbn.
  apply paired_app; [exact Hp|]. constructor; [exact Hc|constructor].
Qed.

Lemma execute_ledger b s d price self l st' :
  (b = true -> position l = 0%Z) ->
  execute b s d price self l = Ok st' ->
  ledger_inv (self, l) -> ledger_inv st'.
Proof.
  unfold execute, ledger_inv. cbn [fst snd]. intros Hb H Hinv.
  destruct (b && Qlt_bool 0 (capital l))%bool eqn:Hbuy.
  - apply andb_prop in Hbuy. destruct Hbuy as [Hbt _].
    specialize (Hb Hbt).
    destruct Hinv as [(_ & Hp)|(H1 & _)]; [|rewrite Hb in H1; discriminate H1].
    destruct (Qeq_bool price 0); [discriminate H|].
    destruct (py_int (capital l / price) >? 0)%Z;
      inversion H; subst; clear H; cbn [fst snd position trades append_trade
        shares entry_price].
    + right. split; [reflexivity|]. eexists. eexists.
      split; [reflexivity|]. repeat split. exact Hp.
    + left. split; assumption.
  - destruct (s && (position l =? 1)%Z)%bool eqn:Hsell.
    + apply andb_prop in Hsell. destruct Hsell as [_ Hl].
      apply Z.eqb_eq in Hl.
      destruct Hinv as [(H0 & _)|(_ & pre & bt & Ht & Hp & Hty & Hsh & Hpr)];
        [rewrite Hl in H0; discriminate H0|].
      inversion H; subst; clear H. cbn [fst snd position trades append_trade].
      left. split; [reflexivity|]. rewrite Ht. apply paired_snoc; [exact Hp|].
      unfold closes_buy.
      cbn [t_type t_shares t_value t_price t_profit t_profit_pct].
      rewrite Hsh, Hpr. repeat split; auto.
    + inversion H; subst. exact Hinv.
Qed.

Lemma step_ledger s p prev cur st st' :
  step s p prev cur st = Ok st' -> ledger_inv st -> ledger_inv st'.
Proof.
  unfold step, bind. intros H Hinv.
  destruct (execute _ _ _ _ _ _) as [st1|e] eqn:Hex; [|discriminate H].
  apply execute_ledger in Hex.
  - inversion H; subst; clear H. unfold ledger_inv in *.
    cbn [fst snd position shares entry_price trades append_equity]. exact Hex.
  - apply signals_buy_flat.
  - destruct st; exact Hinv.
Qed.

Lemma walk_ledger s p rest : forall prev st st',
  walk s p prev rest st = Ok st' -> ledger_inv st -> ledger_inv st'.
Proof.
  induction rest as [|cur rest IH]; intros prev st st' H Hinv.
  - inversion H; subst. exact Hinv.
  - cbn [walk] in H. unfold bind in H.
    destruct (step s p prev cur st) as [st1|e] eqn:Hs; [|discriminate H].
    eapply IH; [exact H|]. eapply step_ledger; eassumption.
Qed.

Lemma run_walk_ledger self s p st :
  run_walk self s p = Ok st -> ledger_inv st.
Proof.
  unfold run_walk, walk_bars. intros H.
  assert (H0 : ledger_inv (reset self)).
  { left. split; [reflexivity|constructor]. }
  destruct (data self) as [|first rest].
  - inversion H; subst. exact H0.
  - eapply walk_ledger; eassumption.
Qed.

Lemma close_open_positions_paired st :
  ledger_inv st -> paired (trades (fst (close_open_positions st))).
Proof.
  unfold close_open_positions, ledger_inv.
  intros [(H0 & Hp)|(H1 & pre & b & Ht & Hp & Hty & Hsh & Hpr)].
  - rewrite H0. exact Hp.
  - rewrite H1. cbn [Z.eqb Pos.eqb fst trades append_trade].
    rewrite Ht. apply paired_snoc; [exact Hp|].
    unfold closes_buy.
    cbn [t_type t_shares t_value t_price t_profit t_profit_pct].
    rewrite Hsh, Hpr. repeat split; auto.
Qed.

Lemma run_strategy_paired self s p eng' :
  run_strategy self s p = Ok eng' -> paired (trades eng').
Proof.
  intros H. apply run_strategy_inv in H. destruct H as (st & Hw & ->).
  apply close_open_positions_paired. eapply run_walk_ledger. exact Hw.
Qed.

Lemma paired_counts ts :
  paired ts -> count_side BUY ts = count_side SELL ts.
Proof.
  unfold count_side. induction 1 as [|b s rest Hc _ IH].
  - reflexivity.
  - destruct Hc as (Hb & Hs & _). cbn [filter]. rewrite Hb, Hs.
    cbn [Side_eqb List.length]. rewrite IH. reflexivity.
Qed.

Lemma paired_holdings ts : paired ts -> holdings ts = 0%Z.
Proof.
  induction 1 as [|b s rest Hc _ IH].
  - reflexivity.
  - destruct Hc as (Hb & Hs & Hsh & _). cbn [holdings].
    rewrite Hb, Hs, IH, Hsh. lia.
Qed.

(** ** C10: the ledger is a sequence of BUY/SELL pairs *)

(** C10: in every completed run the ledger is a sequence of pairs, a BUY
    followed by the SELL that closes it: the SELL has the share count of
    that BUY, and its profit and profit percentage are taken against the
    price of that BUY. So the ledger starts with a BUY when it is not
    empty, the sides alternate, and there are as many BUY as SELL entries. *)
Theorem C10_ledger_paired self s p eng' :
  run_strategy self s p = Ok eng' ->
  paired (trades eng') /\
  count_side BUY (trades eng') = count_side SELL (trades eng') /\
  (forall t, hd_error (trades eng') = Some t -> t_type t = BUY).
Proof.
  intros H. pose proof (run_strategy_paired _ _ _ _ H) as Hp.
  split; [exact Hp|]. split; [apply paired_counts; exact Hp|].
  intros t Ht. destruct Hp as [|b s0 rest Hc _]; [discriminate Ht|].
  cbn in Ht. inversion Ht; subst. apply Hc.
Qed.

(** C10 on the ledger of MACD_CROSSOVER over the two bars 100, 110. *)
Lemma C10_ledger_paired_witness :
  paired (trades after_100_110) /\
  count_side BUY (trades after_100_110) = count_side SELL (trades after_100_110) /\
  (forall t, hd_error (trades after_100_110) = Some t -> t_type t = BUY).
Proof.
  apply (C10_ledger_paired (new_engine 100000 rows_100_110) "MACD_CROSSOVER" []
           after_100_110).
  reflexivity.
Defined.

(** ** The cash balance with exact arithmetic *)

Lemma Qlt_bool_true x y : Qlt_bool x y = true -> x < y.
Proof.
  unfold Qlt_bool. intros H. apply negb_true_iff in H.
  apply Qnot_le_lt. intros Hle. apply Qle_bool_iff in Hle. congruence.
Qed.

(** On a non-negative value [int] is the floor. *)
Lemma py_int_floor q : 0 <= q -> inject_Z (py_int q) <= q.
Proof.
  destruct q as [n d]. intros H. unfold py_int. cbn [Qnum Qden].
  assert (Hn : (0 <= n)%Z).
  { unfold Qle in H. cbn in H. lia. }
  rewrite Z.quot_div_nonneg by lia.
  change (n / Z.pos d)%Z with (Qfloor (n # d)). apply Qfloor_le.
Qed.

(** What a BUY spends never exceeds the cash. *)
Lemma buy_cost_le cap price :
  0 <= cap -> 0 < price -> inject_Z (py_int (cap / price)) * price <= cap.
Proof.
  intros Hc Hp.
  assert (Hq : 0 <= cap / price).
  { unfold Qdiv. apply Qmult_le_0_compat; [exact Hc|].
    apply Qlt_le_weak. apply Qinv_lt_0_compat. exact Hp. }
  apply Qle_trans with (cap / price * price).
  - apply Qmult_le_compat_r; [apply py_int_floor; exact Hq|].
    apply Qlt_le_weak; exact Hp.
  - assert (E : cap / price * price == cap).
    { field. intros E0. rewrite E0 in Hp. revert Hp. apply Qlt_irrefl. }
    rewrite E. apply Qle_refl.
Qed.

Lemma proceeds_nonneg n price : (0 < n)%Z -> 0 <= price -> 0 <= inject_Z n * price.
Proof.
  intros Hn Hp. apply Qmult_le_0_compat; [|exact Hp].
  unfold Qle, inject_Z. cbn. lia.
Qed.

Lemma execute_cash b s d price self l st' :
  (b = true -> position l = 0%Z) ->
  0 < price ->
  execute b s d price self l = Ok st' ->
  cash_inv (self, l) -> cash_inv st'.
Proof.
  unfold execute, cash_inv. cbn [fst snd].
  intros Hb Hp H (Hcap & Hsh & Htr).
  destruct (b && Qlt_bool 0 (capital l))%bool eqn:Hbuy.
  - apply andb_prop in Hbuy. destruct Hbuy as [Hbt _]. specialize (Hb Hbt).
    destruct (Qeq_bool price 0); [discriminate H|].
    destruct (py_int (capital l / price) >? 0)%Z eqn:Hk;
      inversion H; subst; clear H;
      cbn [fst snd position shares capital trades append_trade].
    + pose proof (buy_cost_le _ _ Hcap Hp) as Hle.
      assert (Hnew : 0 <= capital l - inject_Z (py_int (capital l / price)) * price)
        by lra.
      split; [exact Hnew|]. split; [intros _; lia|].
      apply Forall_app. split; [exact Htr|]. constructor; [exact Hnew|constructor].
    + split; [exact Hcap|]. split; [|exact Htr].
      intros H1. rewrite Hb in H1. discriminate H1.
  - destruct (s && (position l =? 1)%Z)%bool eqn:Hsell.
    + apply andb_prop in Hsell. destruct Hsell as [_ Hl].
      apply Z.eqb_eq in Hl. specialize (Hsh Hl).
      inversion H; subst; clear H.
      cbn [fst snd position shares capital trades append_trade].
      pose proof (proceeds_nonneg _ _ Hsh (Qlt_le_weak _ _ Hp)) as Hpr.
      assert (Hnew : 0 <= capital l + inject_Z (shares l) * price) by lra.
      split; [exact Hnew|]. split; [intros H1; discriminate H1|].
      apply Forall_app. split; [exact Htr|]. constructor; [exact Hnew|constructor].
    + inversion H; subst. auto.
Qed.

Lemma step_cash s p prev cur st st' :
  0 < Close cur ->
  step s p prev cur st = Ok st' -> cash_inv st -> cash_inv st'.
Proof.
  unfold step, bind. intros Hp H Hinv.
  destruct (execute _ _ _ _ _ _) as [st1|e] eqn:Hex; [|discriminate H].
  apply execute_cash in Hex.
  - inversion H; subst; clear H. unfold cash_inv in *.
    cbn [fst snd position shares capital trades append_equity]. exact Hex.
  - apply signals_buy_flat.
  - exact Hp.
  - destruct st; exact Hinv.
Qed.

Lemma walk_cash s p rest : forall prev st st',
  valid_closes rest ->
  walk s p prev rest st = Ok st' -> cash_inv st -> cash_inv st'.
Proof.
  induction rest as [|cur rest IH]; intros prev st st' Hv H Hinv.
  - inversion H; subst. exact Hinv.
  - inversion Hv as [|? ? Hc Hr]; subst.
    cbn [walk] in H. unfold bind in H.
    destruct (step s p prev cur st) as [st1|e] eqn:Hs; [|discriminate H].
    eapply IH; [exact Hr|exact H|]. eapply step_cash; eassumption.
Qed.

Lemma walk_bars_cash s p rows st st' :
  valid_closes rows ->
  walk_bars s p rows st = Ok st' -> cash_inv st -> cash_inv st'.
Proof.
  unfold walk_bars. intros Hv H Hinv. destruct rows as [|first rest].
  - inversion H; subst. exact Hinv.
  - inversion Hv; subst. eapply walk_cash; eassumption.
Qed.

Lemma walk_bars_total s p rows st :
  valid_closes rows -> exists st', walk_bars s p rows st = Ok st'.
Proof.
  unfold walk_bars. intros Hv. destruct rows as [|first rest].
  - eexists; reflexivity.
  - inversion Hv; subst. apply walk_total. assumption.
Qed.

Lemma last_close_nonneg rows : valid_closes rows -> 0 <= last (map Close rows) 0.
Proof.
  induction 1 as [|r rows Hr _ IH].
  - apply Qle_refl.
  - cbn [map]. destruct rows as [|r' rows'].
    + cbn. apply Qlt_le_weak. exact Hr.
    + exact IH.
Qed.

Lemma close_open_positions_cash st :
  valid_closes (data (fst st)) -> cash_inv st -> cash_inv (close_open_positions st).
Proof.
  unfold close_open_positions, cash_inv. intros Hv (Hcap & Hsh & Htr).
  destruct (position (snd st) =? 1)%Z eqn:Hl; [|auto].
  apply Z.eqb_eq in Hl.
  cbn [fst snd position shares capital trades append_trade].
  pose proof (proceeds_nonneg _ _ (Hsh Hl) (last_close_nonneg _ Hv)) as Hpr.
  assert (Hnew : 0 <= capital (snd st)
                      + inject_Z (shares (snd st)) * last (map Close (data (fst st))) 0)
    by lra.
  split; [exact Hnew|]. split; [exact Hsh|].
  apply Forall_app. split; [exact Htr|]. constructor; [exact Hnew|constructor].
Qed.

(** The walk over a prefix of the frame is the state in which the walk
    over the whole frame is after that prefix. *)
Lemma last_cons_default {A : Type} (l : list A) : forall x d,
  last (x :: l) d = last l x.
Proof.
  induction l as [|y l IH]; intros x d.
  - reflexivity.
  - change (last (x :: y :: l) d) with (last (y :: l) d).
    rewrite (IH y d), (IH y x). reflexivity.
Qed.

Lemma walk_app s p r1 : forall r2 prev st,
  walk s p prev (r1 ++ r2) st =
    bind (walk s p prev r1 st) (walk s p (last r1 prev) r2).
Proof.
  induction r1 as [|cur r1 IH]; intros r2 prev st.
  - reflexivity.
  - rewrite last_cons_default. cbn [app walk].
    destruct (step s p prev cur st) as [st1|e]; [|reflexivity].
    cbn [bind]. apply IH.
Qed.

(** The cash balance with exact arithmetic. If quotient and product of
    the BUY block are exact, then with a non-negative initial capital and
    positive closes the cash is non-negative after every bar of the walk
    (the state after any prefix of the frame) and at the return, and so
    is the cash recorded in every ledger entry. With the rounding of
    doubles this fails, see [Doubles.buy_block]. *)
Lemma cash_never_negative_exact self s p :
  0 <= initial_capital self ->
  valid_closes (data self) ->
  (forall pre post, data self = pre ++ post ->
     exists st, walk_bars s p pre (reset self) = Ok st /\ 0 <= capital (snd st)) /\
  (exists st, run_frame self s p = Ok st /\ 0 <= capital (snd st) /\
              Forall (fun t => 0 <= t_capital t) (trades (fst st))).
Proof.
  intros Hcap Hv.
  assert (H0 : cash_inv (reset self)).
  { unfold cash_inv, reset. cbn. split; [exact Hcap|].
    split; [intros H; discriminate H|constructor]. }
  split.
  - intros pre post E.
    assert (Hpre : valid_closes pre).
    { unfold valid_closes in *. rewrite E in Hv. apply Forall_app in Hv. apply Hv. }
    destruct (walk_bars_total s p pre (reset self) Hpre) as [st Hst].
    exists st. split; [exact Hst|].
    apply (walk_bars_cash _ _ _ _ _ Hpre Hst H0).
  - destruct (walk_bars_total s p (data self) (reset self) Hv) as [st Hst].
    pose proof (walk_bars_cash _ _ _ _ _ Hv Hst H0) as Hinv.
    assert (Hd : data (fst st) = data self).
    { destruct (run_strategy_frame self s p (fst (close_open_positions st)))
        as (Hd & _).
      - unfold run_strategy, run_frame, run_walk. rewrite Hst. reflexivity.
      - destruct (close_open_positions_frame st) as (Hd' & _). congruence. }
    exists (close_open_positions st). unfold run_frame, run_walk.
    rewrite Hst. cbn [bind]. split; [reflexivity|].
    apply close_open_positions_cash in Hinv; [|rewrite Hd; exact Hv].
    destruct Hinv as (Hc & _ & Ht). auto.
Qed.

(** ** The divisor of the profit percentage *)

Lemma py_int_nonpos q : q <= 0 -> (py_int q <= 0)%Z.
Proof.
  destruct q as [n d]. intros H. unfold py_int. cbn [Qnum Qden].
  assert (Hn : (n <= 0)%Z).
  { unfold Qle in H. cbn in H. lia. }
  replace n with (- - n)%Z by lia.
  rewrite Z.quot_opp_l by lia.
  pose proof (Z.quot_pos (- n) (Z.pos d)). lia.
Qed.

Lemma buy_price_pos cap price :
  0 < cap -> (0 < py_int (cap / price))%Z -> 0 < price.
Proof.
  intros Hc Hk.
  destruct (Qlt_le_dec 0 price) as [Hp|Hp]; [exact Hp|].
  exfalso.
  assert (Hq : cap / price <= 0).
  { unfold Qdiv.
    setoid_replace 0 with (cap * 0) by ring.
    apply Qmult_le_l; [exact Hc|].
    destruct (Qeq_dec price 0) as [E|E].
    - rewrite E. apply Qle_refl.
    - assert (Hneg : price < 0).
      { apply Qle_lteq in Hp. destruct Hp as [Hp|Hp]; [exact Hp|contradiction]. }
      apply Qlt_le_weak.
      assert (Hi : 0 < / - price).
      { apply Qinv_lt_0_compat. lra. }
      assert (Ho : / - price == - / price).
      { field. exact E. }
      rewrite Ho in Hi. lra. }
  apply py_int_nonpos in Hq. lia.
Qed.

Lemma execute_long b s d price self l st' :
  (b = true -> position l = 0%Z) ->
  execute b s d price self l = Ok st' -> long_inv l -> long_inv (snd st').
Proof.
  unfold execute, long_inv. intros Hb H Hinv.
  destruct (b && Qlt_bool 0 (capital l))%bool eqn:Hbuy.
  - apply andb_prop in Hbuy. destruct Hbuy as [Hbt Hcap].
    specialize (Hb Hbt). apply Qlt_bool_true in Hcap.
    destruct (Qeq_bool price 0); [discriminate H|].
    destruct (py_int (capital l / price) >? 0)%Z eqn:Hk;
      inversion H; subst; clear H; cbn [snd position shares entry_price].
    + intros _. assert (Hk' : (0 < py_int (capital l / price))%Z) by lia.
      split; [exact Hk'|]. eapply buy_price_pos; eassumption.
    + intros H1. rewrite Hb in H1. discriminate H1.
  - destruct (s && (position l =? 1)%Z)%bool;
      inversion H; subst; clear H; cbn [snd position]; [|exact Hinv].
    intros H1. discriminate H1.
Qed.

Lemma step_long s p prev cur st st' :
  step s p prev cur st = Ok st' -> long_inv (snd st) -> long_inv (snd st').
Proof.
  unfold step, bind. intros H Hinv.
  destruct (execute _ _ _ _ _ _) as [st1|e] eqn:Hex; [|discriminate H].
  apply execute_long in Hex.
  - inversion H; subst; clear H. unfold long_inv in *.
    cbn [snd position shares entry_price]. exact Hex.
  - apply signals_buy_flat.
  - exact Hinv.
Qed.

(** In every state that the bar walk of a run reaches, and so at every
    SELL, [shares * entry_price] is positive. *)
Lemma run_walk_long self s p st :
  run_walk self s p = Ok st -> long_inv (snd st).
Proof.
  unfold run_walk, walk_bars. intros H.
  assert (H0 : long_inv (snd (reset self))).
  { intros H1. discriminate H1. }
  destruct (data self) as [|first rest]; [inversion H; subst; exact H0|].
  revert H H0. generalize (reset self). generalize first.
  induction rest as [|cur rest IH]; intros prev st0 H H0.
  - inversion H; subst. exact H0.
  - cbn [walk] in H. unfold bind in H.
    destruct (step s p prev cur st0) as [st1|e] eqn:Hs; [|discriminate H].
    eapply IH; [exact H|]. eapply step_long; eassumption.
Qed.

(** ** C9: what moves the cash *)

(** [Doubles.close_5882] is within half a unit in the last place (2^-41)
    of the decimal 5882.352941176471: it is the double that this literal
    denotes. *)
Lemma close_5882_nearest :
  Qabs (Doubles.to_Q Doubles.close_5882 - (5882352941176471 # 1000000000000))
    < 1 # (2 ^ 41).
Proof. vm_compute. reflexivity. Qed.












(** ** C1: the close at the end of the run *)

(** What the closing block does. On a valid series the bar walk
    completes, and if it ends long, [run_strategy] appends one SELL at the
    final bar's close for the shares held, with the profit taken against
    the entry price: ledger and cash are those of a signalled SELL at
    that price. If the walk ends flat, nothing is appended. Either way the
    returned ledger holds no open BUY: shares bought and shares sold
    cancel. *)
Lemma forced_close_sells self s p :
  valid_closes (data self) ->
  exists st,
    run_walk self s p = Ok st /\
    (position (snd st) = 1%Z ->
     exists t l',
       run_frame self s p = Ok (append_trade (fst st) t, l') /\
       t_type t = SELL /\
       t_price t = last (map Close (data self)) 0 /\
       t_shares t = shares (snd st) /\
       t_profit t =
         Some (inject_Z (shares (snd st)) * t_price t
               - inject_Z (shares (snd st)) * entry_price (snd st)) /\
       (exists l_sig,
          execute false true (t_date t) (t_price t) (fst st) (snd st) =
            Ok (append_trade (fst st) t, l_sig) /\
          capital l' = capital l_sig)) /\
    (position (snd st) <> 1%Z -> run_frame self s p = Ok st) /\
    (forall eng', run_strategy self s p = Ok eng' -> holdings (trades eng') = 0%Z).
Proof.
  intros Hv. destruct (run_walk_total self s p Hv) as [st Hst].
  exists st. split; [exact Hst|].
  assert (Hd : data (fst st) = data self).
  { unfold run_walk, walk_bars, reset in Hst.
    destruct (data self) as [|first rest] eqn:E.
    - inversion Hst; subst. cbn. exact E.
    - apply walk_frame in Hst. cbn in Hst. destruct Hst as (Hd & _).
      congruence. }
  split; [|split].
  - intros Hl. unfold run_frame. rewrite Hst. cbn [bind].
    unfold close_open_positions, execute. rewrite Hl, Hd.
    cbn [Z.eqb Pos.eqb andb].
    eexists. eexists. split; [reflexivity|].
    cbn [t_type t_price t_shares t_profit t_date].
    repeat split. eexists. split; reflexivity.
  - intros Hl. unfold run_frame. rewrite Hst. cbn [bind].
    unfold close_open_positions.
    destruct (position (snd st) =? 1)%Z eqn:E; [|destruct st; reflexivity].
    apply Z.eqb_eq in E. contradiction.
  - intros eng' Hrun. apply paired_holdings.
    eapply run_strategy_paired. exact Hrun.
Qed.

(** C1: on a valid series the bar walk and the run complete. If the walk
    ends long, the run appends one SELL at the final bar's close for the
    shares held, with value, profit and profit percentage against the
    entry price: the engine returned is the one a signalled SELL at that
    date and price leaves, and that SELL leaves the position flat with no
    shares. If the walk ends flat, nothing is appended. So every run ends
    flat: in the returned ledger shares bought and shares sold cancel.
    (The locals [position] and [shares] themselves are not written by
    the closing block; nothing reads them before the [return].) *)
Theorem C1_run_ends_flat self s p :
  valid_closes (data self) ->
  exists st eng',
    run_walk self s p = Ok st /\
    run_strategy self s p = Ok eng' /\
    (position (snd st) = 1%Z ->
     let final_date := last (map Date (data self)) 0%nat in
     let final_price := last (map Close (data self)) 0 in
     let held := inject_Z (shares (snd st)) in
     exists sold,
       execute false true final_date final_price (fst st) (snd st)
         = Ok (eng', sold) /\
       position sold = 0%Z /\ shares sold = 0%Z /\
       trades eng' =
         trades (fst st)
         ++ [{| t_date := final_date; t_type := SELL; t_price := final_price;
                t_shares := shares (snd st);
                t_value := held * final_price;
                t_profit :=
                  Some (held * final_price - held * entry_price (snd st));
                t_profit_pct :=
                  Some ((held * final_price - held * entry_price (snd st))
                        / (held * entry_price (snd st)) * 100);
                t_capital := capital (snd st) + held * final_price |}]) /\
    (position (snd st) <> 1%Z -> eng' = fst st) /\
    holdings (trades eng') = 0%Z.
Proof.
  intros Hv. destruct (run_walk_total self s p Hv) as [st Hst].
  exists st, (fst (close_open_positions st)).
  split; [exact Hst|].
  assert (Hrun : run_strategy self s p = Ok (fst (close_open_positions st))).
  { unfold run_strategy, run_frame. rewrite Hst. reflexivity. }
  split; [exact Hrun|].
  assert (Hd : data (fst st) = data self).
  { unfold run_walk, walk_bars, reset in Hst.
    destruct (data self) as [|first rest] eqn:E.
    - inversion Hst; subst. cbn. exact E.
    - apply walk_frame in Hst. cbn in Hst. destruct Hst as (Hd & _).
      congruence. }
  split; [|split].
  - intros Hl. cbv zeta. unfold close_open_positions, execute.
    rewrite Hl, Hd. cbn [Z.eqb Pos.eqb andb fst].
    eexists. split; [reflexivity|]. cbn [position shares trades append_trade].
    repeat split.
  - intros Hl. unfold close_open_positions.
    destruct (position (snd st) =? 1)%Z eqn:E; [|reflexivity].
    apply Z.eqb_eq in E. contradiction.
  - apply paired_holdings. eapply run_strategy_paired. exact Hrun.
Qed.

(** C1 on the two bars 100, 110 with MACD_CROSSOVER, a run that ends
    long with 909 shares bought at 110. *)
Lemma C1_run_ends_flat_witness :
  exists st eng',
    run_walk (new_engine 100000 rows_100_110) "MACD_CROSSOVER" [] = Ok st /\
    run_strategy (new_engine 100000 rows_100_110) "MACD_CROSSOVER" [] = Ok eng' /\
    (position (snd st) = 1%Z ->
     let final_date := last (map Date (data (new_engine 100000 rows_100_110))) 0%nat in
     let final_price := last (map Close (data (new_engine 100000 rows_100_110))) 0 in
     let held := inject_Z (shares (snd st)) in
     exists sold,
       execute false true final_date final_price (fst st) (snd st)
         = Ok (eng', sold) /\
       position sold = 0%Z /\ shares sold = 0%Z /\
       trades eng' =
         trades (fst st)
         ++ [{| t_date := final_date; t_type := SELL; t_price := final_price;
                t_shares := shares (snd st);
                t_value := held * final_price;
                t_profit :=
                  Some (held * final_price - held * entry_price (snd st));
                t_profit_pct :=
                  Some ((held * final_price - held * entry_price (snd st))
                        / (held * entry_price (snd st)) * 100);
                t_capital := capital (snd st) + held * final_price |}]) /\
    (position (snd st) <> 1%Z -> eng' = fst st) /\
    holdings (trades eng') = 0%Z.
Proof.
  apply (C1_run_ends_flat (new_engine 100000 rows_100_110) "MACD_CROSSOVER" []).
  repeat constructor.
Defined.

(** ** C4: the win rate of a run without a SELL *)

Lemma paired_no_sell ts : paired ts -> count_side SELL ts = 0%nat -> ts = [].
Proof.
  intros Hp Hc. destruct Hp as [|b s rest (Hb & Hs & _) _]; [reflexivity|].
  unfold count_side in Hc. cbn [filter] in Hc. rewrite Hb, Hs in Hc.
  cbn in Hc. discriminate Hc.
Qed.

(** C4: what the code does on every completed run without a SELL. The
    ledger of such a run is empty, and [calculate_metrics] returns the
    empty dict when the equity curve is empty and raises KeyError
    otherwise: no "Win Rate %" is ever returned. *)
Theorem C4_zero_sells_no_win_rate self s p eng' :
  run_strategy self s p = Ok eng' ->
  count_side SELL (trades eng') = 0%nat ->
  trades eng' = [] /\
  calculate_metrics eng' =
    match equity_curve eng' with
    | [] => Ok None
    | _ :: _ => Raise KeyError
    end.
Proof.
  intros Hrun Hc.
  assert (Ht : trades eng' = []).
  { apply paired_no_sell; [|exact Hc]. eapply run_strategy_paired. exact Hrun. }
  split; [exact Ht|].
  unfold calculate_metrics. rewrite Ht.
  destruct (equity_curve eng'); reflexivity.
Qed.

(** C4 on the two bars 100, 110 with RSI_OVERSOLD: no trade, one equity
    point, and KeyError from [calculate_metrics]. *)
Lemma C4_zero_sells_no_win_rate_witness :
  trades (mkEngine 100000 rows_100_110 []
            [{| e_date := 1; e_equity := 100000; e_position := 0 |}]) = [] /\
  calculate_metrics
    (mkEngine 100000 rows_100_110 []
       [{| e_date := 1; e_equity := 100000; e_position := 0 |}]) = Raise KeyError.
Proof.
  apply (C4_zero_sells_no_win_rate (new_engine 100000 rows_100_110)
           "RSI_OVERSOLD" []).
  - reflexivity.
  - reflexivity.
Defined.

(** ** Rolling windows *)

Lemma rolling_mean_length w xs : List.length (rolling_mean w xs) = List.length xs.
Proof. unfold rolling_mean. now rewrite length_map, length_seq. Qed.

Lemma rolling_mean_nth w xs i :
  (i < List.length xs)%nat ->
  nth_error (rolling_mean w xs) i =
    Some (if (i + 1 <? w)%nat then NaN
          else Fin (Qsum (window w xs i) / Qnat w)).
Proof.
  intros Hi. unfold rolling_mean. rewrite nth_error_map.
  rewrite (nth_error_nth' _ 0%nat) by (rewrite length_seq; exact Hi).
  rewrite seq_nth by exact Hi. reflexivity.
Qed.

Lemma rolling_mean_fin w xs i a :
  nth_error (rolling_mean w xs) i = Some (Fin a) ->
  (i < List.length xs)%nat /\ (w <= i + 1)%nat /\
  a = Qsum (window w xs i) / Qnat w.
Proof.
  intros H.
  assert (Hi : (i < List.length xs)%nat).
  { rewrite <- (rolling_mean_length w). apply nth_error_Some. congruence. }
  rewrite (rolling_mean_nth _ _ _ Hi) in H.
  destruct (i + 1 <? w)%nat eqn:E; [discriminate H|].
  apply Nat.ltb_ge in E. inversion H. auto.
Qed.

Lemma map2_nth_error {A B C : Type} (f : A -> B -> C) xs : forall ys i,
  nth_error (map2 f xs ys) i =
    match nth_error xs i, nth_error ys i with
    | Some x, Some y => Some (f x y)
    | _, _ => None
    end.
Proof.
  induction xs as [|x xs IH]; intros ys i.
  - destruct i; reflexivity.
  - destruct ys as [|y ys].
    + destruct i; cbn; [reflexivity|]. destruct (nth_error xs i); reflexivity.
    + destruct i; cbn; [reflexivity|]. apply IH.
Qed.

Lemma Qsum_nonneg xs : Forall (fun x => 0 <= x) xs -> 0 <= Qsum xs.
Proof.
  induction 1 as [|x xs Hx _ IH].
  - apply Qle_refl.
  - change (0 <= x + Qsum xs). lra.
Qed.

Lemma Forall_window {A : Type} (P : A -> Prop) w xs i :
  Forall P xs -> Forall P (window w xs i).
Proof.
  intros H. unfold window.
  assert (Hs : Forall P (skipn (i + 1 - w) xs)).
  { rewrite <- (firstn_skipn (i + 1 - w) xs) in H.
    apply Forall_app in H. apply H. }
  rewrite <- (firstn_skipn w (skipn (i + 1 - w) xs)) in Hs.
  apply Forall_app in Hs. apply Hs.
Qed.

Lemma Qlt_bool_false x y : Qlt_bool x y = false -> y <= x.
Proof.
  unfold Qlt_bool. intros H. apply negb_false_iff in H.
  apply Qle_bool_iff. exact H.
Qed.

Lemma Qlt_bool_intro x y : x < y -> Qlt_bool x y = true.
Proof.
  intros H. destruct (Qlt_bool x y) eqn:E; [reflexivity|].
  apply Qlt_bool_false in E. lra.
Qed.

Lemma gain_series_nonneg prices : Forall (fun x => 0 <= x) (gain_series prices).
Proof.
  unfold gain_series. apply Forall_forall. intros x Hx.
  apply in_map_iff in Hx. destruct Hx as (d & <- & _).
  destruct d as [q|]; cbn; [|apply Qle_refl].
  destruct (Qlt_bool 0 q) eqn:E; [|apply Qle_refl].
  apply Qlt_le_weak. apply Qlt_bool_true. exact E.
Qed.

Lemma Qnat_nonneg n : 0 <= Qnat n.
Proof. unfold Qnat, Qle, inject_Z. cbn. lia. Qed.

Lemma Qdiv_nonneg x y : 0 <= x -> 0 <= y -> 0 <= x / y.
Proof.
  intros Hx Hy. unfold Qdiv. apply Qmult_le_0_compat; [exact Hx|].
  apply Qinv_le_0_compat. exact Hy.
Qed.

(** ** C5: the RSI when the average loss is zero *)

(** C5, as claimed, fails on the flat series: at index 14 of fifteen
    closes of 100 the average loss is zero, and so is the average gain;
    the RSI there is NaN, not 100. *)
Lemma C5_flat_series_rsi_is_nan :
  nth_error (avg_loss flat_prices 14) 14 = Some (Fin (0 # 14)) /\
  nth_error (avg_gain flat_prices 14) 14 = Some (Fin (0 # 14)) /\
  nth_error (_calculate_rsi flat_prices 14) 14 = Some NaN.
Proof. repeat split. Qed.

(** C5, amended: at every index at which both averages are defined and the
    average loss is exactly 0, the average gain is non-negative; when it
    is positive the RSI is 100 (the quotient is an infinity, nothing is
    raised), and when it is 0 as well, as on a flat series, the RSI is
    NaN. *)
Theorem C5_rsi_zero_loss prices period i g l :
  nth_error (avg_gain prices period) i = Some (Fin g) ->
  nth_error (avg_loss prices period) i = Some (Fin l) ->
  l == 0 ->
  0 <= g /\
  (0 < g -> nth_error (_calculate_rsi prices period) i = Some (Fin 100)) /\
  (g == 0 -> nth_error (_calculate_rsi prices period) i = Some NaN).
Proof.
  intros Hg Hl Hl0.
  assert (Hg0 : 0 <= g).
  { apply rolling_mean_fin in Hg. destruct Hg as (_ & _ & ->).
    apply Qdiv_nonneg; [|apply Qnat_nonneg].
    apply Qsum_nonneg. apply Forall_window. apply gain_series_nonneg. }
  assert (Hrs : nth_error (_calculate_rsi prices period) i =
                Some (rsi_of_rs (inf_of_sign g))).
  { unfold _calculate_rsi. rewrite nth_error_map, map2_nth_error, Hg, Hl.
    cbn [option_map fdiv].
    apply Qeq_bool_iff in Hl0. rewrite Hl0. reflexivity. }
  split; [exact Hg0|]. split.
  - intros Hpos. rewrite Hrs. unfold inf_of_sign.
    rewrite (Qlt_bool_intro _ _ Hpos). reflexivity.
  - intros Hz. rewrite Hrs. unfold inf_of_sign.
    destruct (Qlt_bool 0 g) eqn:E1.
    + apply Qlt_bool_true in E1. lra.
    + destruct (Qlt_bool g 0) eqn:E2; [|reflexivity].
      apply Qlt_bool_true in E2. lra.
Qed.

(** C5 on the rising closes at index 14: average gain 14/14, average
    loss 0, RSI 100. *)
Lemma C5_rsi_zero_loss_witness :
  0 <= 14 # 14 /\
  (0 < 14 # 14 -> nth_error (_calculate_rsi rising_prices 14) 14 = Some (Fin 100)) /\
  (14 # 14 == 0 -> nth_error (_calculate_rsi rising_prices 14) 14 = Some NaN).
Proof.
  apply (C5_rsi_zero_loss rising_prices 14 14 (14 # 14) (0 # 14)).
  - reflexivity.
  - reflexivity.
  - reflexivity.
Defined.

(** ** C6: how the two averages move from one bar to the next *)

Lemma Qsum_firstn_S n : forall l,
  Qsum (firstn (S n) l) == Qsum (firstn n l) + nth n l 0.
Proof.
  induction n as [|n IH]; intros l.
  - destruct l as [|x l]; cbn [firstn nth Qsum fold_right]; lra.
  - destruct l as [|x l].
    + cbn [firstn nth Qsum fold_right]. lra.
    + change (x + Qsum (firstn (S n) l) == x + Qsum (firstn n l) + nth n l 0).
      rewrite IH. lra.
Qed.

Lemma Qsum_firstn_skipn n k : forall xs,
  Qsum (firstn (S n) (skipn k xs)) ==
    nth k xs 0 + Qsum (firstn n (skipn (S k) xs)).
Proof.
  induction k as [|k IH]; intros xs.
  - destruct xs as [|x xs].
    + rewrite !firstn_nil. cbn. lra.
    + reflexivity.
  - destruct xs as [|x xs].
    + cbn [skipn]. rewrite !firstn_nil. cbn. lra.
    + cbn [skipn nth]. apply IH.
Qed.

(** The rolling sum slides: the entry that enters the window is added
    and the entry that leaves it is dropped. *)
Lemma window_sum_slide w xs i :
  (0 < w)%nat -> (w <= i + 1)%nat ->
  Qsum (window w xs (S i)) ==
    Qsum (window w xs i) + nth (S i) xs 0 - nth (S i - w) xs 0.
Proof.
  intros Hw Hi. unfold window.
  destruct w as [|w']; [lia|].
  replace (S i + 1 - S w')%nat with (S (i + 1 - S w')) by lia.
  rewrite Qsum_firstn_S, (Qsum_firstn_skipn w' (i + 1 - S w')).
  rewrite nth_skipn.
  replace (S (i + 1 - S w') + w')%nat with (S i) by lia.
  replace (S i - S w')%nat with (i + 1 - S w')%nat by lia.
  lra.
Qed.

Lemma Qnat_pos n : (0 < n)%nat -> 0 < Qnat n.
Proof. intros H. unfold Qnat, Qlt, inject_Z. cbn. lia. Qed.

Lemma rolling_mean_slide w xs i a a' :
  (0 < w)%nat ->
  nth_error (rolling_mean w xs) i = Some (Fin a) ->
  nth_error (rolling_mean w xs) (S i) = Some (Fin a') ->
  a' == a + (nth (S i) xs 0 - nth (S i - w) xs 0) / Qnat w.
Proof.
  intros Hw Ha Ha'.
  apply rolling_mean_fin in Ha. destruct Ha as (_ & Hi & ->).
  apply rolling_mean_fin in Ha'. destruct Ha' as (_ & _ & ->).
  rewrite (window_sum_slide w xs i Hw Hi).
  pose proof (Qnat_pos w Hw) as Hp.
  field. intros E. rewrite E in Hp. revert Hp. apply Qlt_irrefl.
Qed.

Lemma diff_from_length xs : forall prev,
  List.length (diff_from prev xs) = List.length xs.
Proof.
  induction xs as [|x xs IH]; intros prev; cbn; [reflexivity|].
  now rewrite IH.
Qed.

Lemma gain_series_length prices :
  List.length (gain_series prices) = List.length prices.
Proof.
  unfold gain_series, diff. rewrite length_map.
  destruct prices as [|p0 rest]; [reflexivity|].
  cbn. now rewrite diff_from_length.
Qed.

Lemma loss_series_length prices :
  List.length (loss_series prices) = List.length prices.
Proof.
  unfold loss_series, diff. rewrite length_map.
  destruct prices as [|p0 rest]; [reflexivity|].
  cbn. now rewrite diff_from_length.
Qed.

(** C6, as claimed, fails: on the closes 1, 2, ..., 16 with period 14 the
    average gain is 13/14 at index 13 and 1 at index 14, the gain at
    index 14 is 1, and (13/14 * 13 + 1) / 14 is not 1. *)
Lemma C6_not_wilder :
  ~ spec_wilder_recurrence 14 (gain_series rising_prices)
      (avg_gain rising_prices 14).
Proof.
  intros H.
  specialize (H 13%nat (13 # 14) (14 # 14) 1 eq_refl eq_refl eq_refl).
  vm_compute in H. discriminate H.
Qed.

(** C6, amended: the two averages of the RSI are simple rolling means
    over the trailing [period] entries of the gain and loss series (whose
    entry 0, the undefined first change, is 0). They are NaN before index
    [period - 1]; the first average, at index [period - 1], is the sum of
    the first [period] entries over [period]; and from one index to the
    next the average moves by (entering entry - leaving entry) / period. *)
Theorem C6_rolling_mean_averages prices period :
  (0 < period)%nat ->
  (period <= List.length prices)%nat ->
  (forall i, (i + 1 < period)%nat ->
     nth_error (avg_gain prices period) i = Some NaN /\
     nth_error (avg_loss prices period) i = Some NaN) /\
  nth_error (avg_gain prices period) (period - 1) =
    Some (Fin (Qsum (firstn period (gain_series prices)) / Qnat period)) /\
  nth_error (avg_loss prices period) (period - 1) =
    Some (Fin (Qsum (firstn period (loss_series prices)) / Qnat period)) /\
  (forall i a a',
     nth_error (avg_gain prices period) i = Some (Fin a) ->
     nth_error (avg_gain prices period) (S i) = Some (Fin a') ->
     a' == a + (nth (S i) (gain_series prices) 0
                - nth (S i - period) (gain_series prices) 0) / Qnat period) /\
  (forall i a a',
     nth_error (avg_loss prices period) i = Some (Fin a) ->
     nth_error (avg_loss prices period) (S i) = Some (Fin a') ->
     a' == a + (nth (S i) (loss_series prices) 0
                - nth (S i - period) (loss_series prices) 0) / Qnat period).
Proof.
  intros Hp Hlen. unfold avg_gain, avg_loss.
  assert (Hfirst : forall xs, List.length xs = List.length prices ->
            nth_error (rolling_mean period xs) (period - 1) =
              Some (Fin (Qsum (firstn period xs) / Qnat period))).
  { intros xs Hxs. rewrite rolling_mean_nth by lia.
    replace (period - 1 + 1 <? period)%nat with false
      by (symmetry; apply Nat.ltb_ge; lia).
    unfold window. replace (period - 1 + 1 - period)%nat with 0%nat by lia.
    reflexivity. }
  assert (Hnan : forall xs i, List.length xs = List.length prices ->
            (i + 1 < period)%nat -> nth_error (rolling_mean period xs) i = Some NaN).
  { intros xs i Hxs Hi. rewrite rolling_mean_nth by lia.
    replace (i + 1 <? period)%nat with true
      by (symmetry; apply Nat.ltb_lt; exact Hi).
    reflexivity. }
  split; [|split; [|split; [|split]]].
  - intros i Hi. split; apply Hnan; auto using gain_series_length, loss_series_length.
  - apply Hfirst, gain_series_length.
  - apply Hfirst, loss_series_length.
  - intros i a a'. apply rolling_mean_slide. exact Hp.
  - intros i a a'. apply rolling_mean_slide. exact Hp.
Qed.

(** C6 on the rising closes with period 14. *)
Lemma C6_rolling_mean_averages_witness :
  (forall i, (i + 1 < 14)%nat ->
     nth_error (avg_gain rising_prices 14) i = Some NaN /\
     nth_error (avg_loss rising_prices 14) i = Some NaN) /\
  nth_error (avg_gain rising_prices 14) (14 - 1) =
    Some (Fin (Qsum (firstn 14 (gain_series rising_prices)) / Qnat 14)) /\
  nth_error (avg_loss rising_prices 14) (14 - 1) =
    Some (Fin (Qsum (firstn 14 (loss_series rising_prices)) / Qnat 14)) /\
  (forall i a a',
     nth_error (avg_gain rising_prices 14) i = Some (Fin a) ->
     nth_error (avg_gain rising_prices 14) (S i) = Some (Fin a') ->
     a' == a + (nth (S i) (gain_series rising_prices) 0
                - nth (S i - 14) (gain_series rising_prices) 0) / Qnat 14) /\
  (forall i a a',
     nth_error (avg_loss rising_prices 14) i = Some (Fin a) ->
     nth_error (avg_loss rising_prices 14) (S i) = Some (Fin a') ->
     a' == a + (nth (S i) (loss_series rising_prices) 0
                - nth (S i - 14) (loss_series rising_prices) 0) / Qnat 14).
Proof.
  apply (C6_rolling_mean_averages rising_prices 14).
  - lia.
  - cbn. lia.
Defined.

(** ** C7: which standard deviation *)

Section StandardDeviation.

Import RealStats.
Local Open Scope R_scope.

Lemma rolling_nth w f xs i :
  (i < List.length xs)%nat ->
  nth_error (rolling w f xs) i =
    Some (if (i + 1 <? w)%nat then None else f (window w xs i)).
Proof.
  intros Hi. unfold rolling. rewrite nth_error_map.
  rewrite (nth_error_nth' _ 0%nat) by (rewrite length_seq; exact Hi).
  rewrite seq_nth by exact Hi. reflexivity.
Qed.

Lemma window_length {A : Type} w (xs : list A) i :
  (w <= i + 1)%nat -> (i < List.length xs)%nat ->
  List.length (window w xs i) = w.
Proof.
  intros Hw Hi. unfold window. rewrite length_firstn, length_skipn. lia.
Qed.

Lemma Rsum_squares_nonneg (g : R -> R) xs :
  0 <= Rsum (map (fun x => g x * g x) xs).
Proof.
  induction xs as [|x xs IH].
  - cbn. lra.
  - change (0 <= g x * g x + Rsum (map (fun x => g x * g x) xs)).
    pose proof (Rle_0_sqr (g x)) as Hs. unfold Rsqr in Hs. lra.
Qed.

Lemma sum_sq_dev_nonneg xs : 0 <= sum_sq_dev xs.
Proof. unfold sum_sq_dev. apply (Rsum_squares_nonneg (fun x => x - Rmean xs)). Qed.

(** With [n >= 2] observations the [ddof=1] deviation is the population
    deviation scaled by [sqrt (n / (n - 1))]. *)
Lemma std_sample_population xs :
  (2 <= List.length xs)%nat ->
  std_ddof 1 xs =
    sqrt (INR (List.length xs) / (INR (List.length xs) - 1))
    * spec_population_std xs.
Proof.
  intros Hn. unfold spec_population_std, std_ddof.
  assert (Hn2 : 2 <= INR (List.length xs)).
  { change 2 with (INR 2). apply le_INR. exact Hn. }
  pose proof (sum_sq_dev_nonneg xs) as Hss.
  set (n := INR (List.length xs)) in *. set (ss := sum_sq_dev xs) in *.
  change (INR 1) with 1. change (INR 0) with 0.
  rewrite <- sqrt_mult.
  - f_equal. field. lra.
  - apply Rlt_le. apply Rdiv_lt_0_compat; lra.
  - apply Rmult_le_pos; [exact Hss|].
    apply Rlt_le. apply Rinv_0_lt_compat. lra.
Qed.

Lemma bb_std_nth close i :
  (19 <= i)%nat -> (i < List.length close)%nat ->
  nth_error (bb_std close) i = Some (Some (std_ddof 1 (window 20 close i))).
Proof.
  intros H19 Hi. unfold bb_std. rewrite rolling_nth by exact Hi.
  replace (i + 1 <? 20)%nat with false by (symmetry; apply Nat.ltb_ge; lia).
  unfold series_std. rewrite window_length by lia. reflexivity.
Qed.

Lemma bb_middle_nth close i :
  (19 <= i)%nat -> (i < List.length close)%nat ->
  nth_error (bb_middle close) i = Some (Some (Rmean (window 20 close i))).
Proof.
  intros H19 Hi. unfold bb_middle. rewrite rolling_nth by exact Hi.
  replace (i + 1 <? 20)%nat with false by (symmetry; apply Nat.ltb_ge; lia).
  reflexivity.
Qed.

Lemma bb_upper_nth close i :
  (19 <= i)%nat -> (i < List.length close)%nat ->
  nth_error (bb_upper close) i =
    Some (Some (Rmean (window 20 close i) + std_ddof 1 (window 20 close i) * 2)).
Proof.
  intros H19 Hi. unfold bb_upper.
  rewrite map2_nth_error, nth_error_map, bb_middle_nth, bb_std_nth by assumption.
  reflexivity.
Qed.

Lemma bb_lower_nth close i :
  (19 <= i)%nat -> (i < List.length close)%nat ->
  nth_error (bb_lower close) i =
    Some (Some (Rmean (window 20 close i) - std_ddof 1 (window 20 close i) * 2)).
Proof.
  intros H19 Hi. unfold bb_lower.
  rewrite map2_nth_error, nth_error_map, bb_middle_nth, bb_std_nth by assumption.
  reflexivity.
Qed.

Lemma Rmean_closes_1_21 : Rmean closes_1_21 = 2.
Proof.
  unfold Rmean. rewrite INR_IZR_INZ.
  cbn [closes_1_21 repeat app List.length Rsum fold_right Z.of_nat
       Pos.of_succ_nat Pos.succ].
  lra.
Qed.

Lemma sum_sq_dev_closes_1_21 : sum_sq_dev closes_1_21 = 380.
Proof.
  unfold sum_sq_dev. rewrite Rmean_closes_1_21.
  cbn [closes_1_21 repeat app map Rsum fold_right]. lra.
Qed.

End StandardDeviation.

Section BollingerAndSharpe.

Import RealStats.
Local Open Scope R_scope.

Lemma window_closes_1_21 : window 20 closes_1_21 19 = closes_1_21.
Proof. reflexivity. Qed.

Lemma returns_1_2_3 : daily_returns equity_1_2_3 = [(2 - 1) / 1; (3 - 2) / 2].
Proof. reflexivity. Qed.

Lemma sum_sq_dev_returns_1_2_3 : sum_sq_dev (daily_returns equity_1_2_3) = 1 / 8.
Proof.
  rewrite returns_1_2_3. unfold sum_sq_dev, Rmean.
  cbn [List.length INR map Rsum fold_right]. field.
Qed.

(** C7, as claimed, fails. On nineteen closes of 1 followed by 21 the
    upper band at index 19 is 2 + 2 sqrt(380/19), not 2 + 2 sqrt(380/20),
    the population value; and the deviation of the returns of the equity
    values 1, 2, 3 is sqrt((1/8)/1), not sqrt((1/8)/2). *)
Lemma C7_not_population_std :
  nth_error (bb_upper closes_1_21) 19 <>
    Some (Some (Rmean closes_1_21 + 2 * spec_population_std closes_1_21)) /\
  series_std (daily_returns equity_1_2_3) <>
    Some (spec_population_std (daily_returns equity_1_2_3)).
Proof.
  split.
  - rewrite bb_upper_nth by (cbn; lia). rewrite window_closes_1_21.
    intros E. injection E as E.
    assert (E' : std_ddof 1 closes_1_21 = spec_population_std closes_1_21) by lra.
    unfold spec_population_std, std_ddof in E'.
    rewrite sum_sq_dev_closes_1_21 in E'.
    rewrite !INR_IZR_INZ in E'. cbn in E'.
    apply sqrt_inj in E'; lra.
  - assert (Hlen : List.length (daily_returns equity_1_2_3) = 2%nat)
      by reflexivity.
    unfold series_std, spec_population_std, std_ddof.
    rewrite Hlen, sum_sq_dev_returns_1_2_3. cbn [Nat.leb].
    intros E. injection E as E.
    apply sqrt_inj in E; lra.
Qed.

(** C7, amended: the Bollinger bands are the 20-bar mean plus and minus
    twice the trailing 20-bar sample standard deviation (sum of squared
    deviations over 19), which is sqrt(20/19) times the population value;
    the Sharpe ratio divides by the sample standard deviation of the
    per-bar returns as well (sum of squared deviations over n - 1). *)
Theorem C7_sample_standard_deviation close i equity_series :
  (19 <= i)%nat -> (i < List.length close)%nat ->
  (2 <= List.length (daily_returns equity_series))%nat ->
  let win := window 20 close i in
  let returns := daily_returns equity_series in
  let n := INR (List.length returns) in
  nth_error (bb_upper close) i =
    Some (Some (Rmean win + 2 * sqrt (sum_sq_dev win / 19))) /\
  nth_error (bb_lower close) i =
    Some (Some (Rmean win - 2 * sqrt (sum_sq_dev win / 19))) /\
  sqrt (sum_sq_dev win / 19) = sqrt (20 / 19) * spec_population_std win /\
  series_std returns = Some (sqrt (sum_sq_dev returns / (n - 1))) /\
  sqrt (sum_sq_dev returns / (n - 1)) =
    sqrt (n / (n - 1)) * spec_population_std returns /\
  (sqrt (sum_sq_dev returns / (n - 1)) <> 0 ->
   sharpe_ratio equity_series =
     Some (Rmean returns / sqrt (sum_sq_dev returns / (n - 1)) * sqrt 252)).
Proof.
  intros H19 Hi Hn. cbv zeta.
  remember (daily_returns equity_series) as returns eqn:Er.
  set (win := window 20 close i). set (n := INR (List.length returns)).
  assert (Hwin : List.length win = 20%nat) by (apply window_length; lia).
  assert (Hstd : std_ddof 1 win = sqrt (sum_sq_dev win / 19)).
  { unfold std_ddof. rewrite Hwin, !INR_IZR_INZ. cbn. f_equal. f_equal. lra. }
  assert (Hret : series_std returns = Some (sqrt (sum_sq_dev returns / (n - 1)))).
  { unfold series_std.
    replace (List.length returns <=? 1)%nat with false
      by (symmetry; apply Nat.leb_gt; exact Hn).
    reflexivity. }
  split; [|split; [|split; [|split; [|split]]]].
  - rewrite bb_upper_nth by assumption. fold win. rewrite Hstd.
    do 2 f_equal. lra.
  - rewrite bb_lower_nth by assumption. fold win. rewrite Hstd.
    do 2 f_equal. lra.
  - rewrite <- Hstd, std_sample_population by lia.
    rewrite Hwin, !INR_IZR_INZ. cbn. do 2 f_equal. lra.
  - exact Hret.
  - apply (std_sample_population returns). exact Hn.
  - intros Hnz. unfold sharpe_ratio. rewrite <- Er, Hret.
    destruct returns as [|r0 rs]; [cbn in Hn; lia|].
    destruct (Req_dec_T _ 0) as [Hz|_]; [contradiction|reflexivity].
Qed.

(** C7 on nineteen closes of 1 followed by 21, and on the equity values
    1, 2, 3. *)
Lemma C7_sample_standard_deviation_witness :
  let win := window 20 closes_1_21 19 in
  let returns := daily_returns equity_1_2_3 in
  let n := INR (List.length returns) in
  nth_error (bb_upper closes_1_21) 19 =
    Some (Some (Rmean win + 2 * sqrt (sum_sq_dev win / 19))) /\
  nth_error (bb_lower closes_1_21) 19 =
    Some (Some (Rmean win - 2 * sqrt (sum_sq_dev win / 19))) /\
  sqrt (sum_sq_dev win / 19) = sqrt (20 / 19) * spec_population_std win /\
  series_std returns = Some (sqrt (sum_sq_dev returns / (n - 1))) /\
  sqrt (sum_sq_dev returns / (n - 1)) =
    sqrt (n / (n - 1)) * spec_population_std returns /\
  (sqrt (sum_sq_dev returns / (n - 1)) <> 0 ->
   sharpe_ratio equity_1_2_3 =
     Some (Rmean returns / sqrt (sum_sq_dev returns / (n - 1)) * sqrt 252)).
Proof.
  apply (C7_sample_standard_deviation closes_1_21 19 equity_1_2_3).
  - lia.
  - cbn. lia.
  - cbn. lia.
Defined.

End BollingerAndSharpe.

(** * Further properties of the engine *)

(** ** Shares and cost basis of the ledger entries *)

Lemma cost_basis_pos n price : (0 < n)%Z -> 0 < price -> 0 < inject_Z n * price.
Proof.
  intros Hn Hp.
  setoid_replace 0 with (0 * price) by ring.
  apply Qmult_lt_compat_r; [exact Hp|].
  unfold Qlt, inject_Z. cbn. lia.
Qed.

Lemma execute_fills b s d price self l st' :
  (b = true -> position l = 0%Z) ->
  execute b s d price self l = Ok st' ->
  long_inv l -> Forall fill_ok (trades self) ->
  Forall fill_ok (trades (fst st')).
Proof.
  unfold execute. intros Hb H Hlong Hall.
  destruct (b && Qlt_bool 0 (capital l))%bool eqn:Hbuy.
  - apply andb_prop in Hbuy. destruct Hbuy as [_ Hcap].
    apply Qlt_bool_true in Hcap.
    destruct (Qeq_bool price 0); [discriminate H|].
    destruct (py_int (capital l / price) >? 0)%Z eqn:Hk;
      inversion H; subst; clear H; cbn [fst trades append_trade]; [|exact Hall].
    assert (Hk' : (0 < py_int (capital l / price))%Z) by lia.
    pose proof (buy_price_pos _ _ Hcap Hk') as Hp.
    apply Forall_app. split; [exact Hall|].
    constructor; [|constructor]. split; [exact Hk'|].
    intros _. split; [exact Hp|]. apply cost_basis_pos; assumption.
  - destruct (s && (position l =? 1)%Z)%bool eqn:Hsell;
      inversion H; subst; clear H; cbn [fst trades append_trade]; [|exact Hall].
    apply andb_prop in Hsell. destruct Hsell as [_ Hl]. apply Z.eqb_eq in Hl.
    apply Forall_app. split; [exact Hall|].
    constructor; [|constructor]. split; [apply (Hlong Hl)|].
    intros Hty. cbn in Hty. discriminate Hty.
Qed.

Lemma step_fills s p prev cur st st' :
  step s p prev cur st = Ok st' ->
  long_inv (snd st) -> Forall fill_ok (trades (fst st)) ->
  Forall fill_ok (trades (fst st')).
Proof.
  unfold step, bind. intros H Hlong Hall.
  destruct (execute _ _ _ _ _ _) as [st1|e] eqn:Hex; [|discriminate H].
  apply execute_fills in Hex; [|apply signals_buy_flat|exact Hlong|exact Hall].
  inversion H; subst; clear H. exact Hex.
Qed.

Lemma walk_fills s p rest : forall prev st st',
  walk s p prev rest st = Ok st' ->
  long_inv (snd st) -> Forall fill_ok (trades (fst st)) ->
  long_inv (snd st') /\ Forall fill_ok (trades (fst st')).
Proof.
  induction rest as [|cur rest IH]; intros prev st st' H Hlong Hall.
  - inversion H; subst. auto.
  - cbn [walk] in H. unfold bind in H.
    destruct (step s p prev cur st) as [st1|e] eqn:Hs; [|discriminate H].
    eapply IH; [exact H| |].
    + eapply step_long; eassumption.
    + eapply step_fills; eassumption.
Qed.

(** Every entry of the ledger of a completed run has a positive number
    of shares, and every BUY a positive price and a positive cost
    [shares * price], which is the divisor of the profit percentage of
    the SELL that closes it. No assumption on the frame. *)
Theorem ledger_fills_positive self s p eng' :
  run_strategy self s p = Ok eng' ->
  Forall (fun t => (0 < t_shares t)%Z /\
                   (t_type t = BUY ->
                    0 < t_price t /\ 0 < inject_Z (t_shares t) * t_price t))
         (trades eng').
Proof.
  intros H. apply run_strategy_inv in H. destruct H as (st & Hw & ->).
  assert (Hst : long_inv (snd st) /\ Forall fill_ok (trades (fst st))).
  { unfold run_walk, walk_bars in Hw.
    assert (H0 : long_inv (snd (reset self))) by (intros H1; discriminate H1).
    assert (H1 : Forall fill_ok (trades (fst (reset self)))) by constructor.
    destruct (data self) as [|first rest].
    - inversion Hw; subst. auto.
    - eapply walk_fills; eassumption. }
  destruct Hst as [Hlong Hall]. unfold close_open_positions.
  destruct (position (snd st) =? 1)%Z eqn:Hl; [|exact Hall].
  apply Z.eqb_eq in Hl. cbn [fst trades append_trade].
  apply Forall_app. split; [exact Hall|].
  constructor; [|constructor]. split; [apply (Hlong Hl)|].
  intros Hty. cbn in Hty. discriminate Hty.
Qed.

(** [ledger_fills_positive] on the run over the two bars 100, 110. *)
Lemma ledger_fills_positive_witness :
  Forall (fun t => (0 < t_shares t)%Z /\
                   (t_type t = BUY ->
                    0 < t_price t /\ 0 < inject_Z (t_shares t) * t_price t))
         (trades after_100_110).
Proof.
  apply (ledger_fills_positive (new_engine 100000 rows_100_110)
           "MACD_CROSSOVER" [] after_100_110).
  reflexivity.
Defined.

(** ** The books: cash and realized profit *)

Lemma Qsum_app xs ys : Qsum (xs ++ ys) == Qsum xs + Qsum ys.
Proof.
  induction xs as [|x xs IH].
  - change (Qsum ys == 0 + Qsum ys). lra.
  - change (x + Qsum (xs ++ ys) == x + Qsum xs + Qsum ys). lra.
Qed.

Lemma realized_snoc_buy ts t :
  t_type t = BUY -> realized_profit (ts ++ [t]) == realized_profit ts.
Proof.
  intros Ht. unfold realized_profit. rewrite filter_app. cbn [filter].
  unfold is_sell at 2. rewrite Ht. cbn [Side_eqb]. rewrite app_nil_r.
  apply Qeq_refl.
Qed.

Lemma realized_snoc_sell ts t profit :
  t_type t = SELL -> t_profit t = Some profit ->
  realized_profit (ts ++ [t]) == realized_profit ts + profit.
Proof.
  intros Ht Hp. unfold realized_profit. rewrite filter_app. cbn [filter].
  unfold is_sell at 2. rewrite Ht. cbn [Side_eqb].
  rewrite map_app, Qsum_app. cbn [map Qsum fold_right]. rewrite Hp.
  cbn [opt_or_0]. lra.
Qed.

Ltac snoc_sell :=
  match goal with
  | |- context [realized_profit (?ts ++ [?t])] =>
      let Hr := fresh "Hr" in
      pose proof (realized_snoc_sell ts t _ eq_refl eq_refl) as Hr
  end.

Ltac snoc_buy :=
  match goal with
  | |- context [realized_profit (?ts ++ [?t])] =>
      let Hr := fresh "Hr" in
      pose proof (realized_snoc_buy ts t eq_refl) as Hr
  end.

Lemma execute_accounts init b s d price self l st' :
  (b = true -> position l = 0%Z) ->
  execute b s d price self l = Ok st' ->
  accounts_inv init (self, l) -> accounts_inv init st'.
Proof.
  unfold execute, accounts_inv. cbn [fst snd]. intros Hb H Hinv.
  destruct (b && Qlt_bool 0 (capital l))%bool eqn:Hbuy.
  - apply andb_prop in Hbuy. destruct Hbuy as [Hbt _]. specialize (Hb Hbt).
    destruct Hinv as [(H1 & _)|(_ & Hc)]; [rewrite Hb in H1; discriminate H1|].
    destruct (Qeq_bool price 0); [discriminate H|].
    destruct (py_int (capital l / price) >? 0)%Z;
      inversion H; subst; clear H;
      cbn [fst snd position shares entry_price capital trades append_trade].
    + left. split; [reflexivity|].
      snoc_buy. lra.
    + right. split; assumption.
  - destruct (s && (position l =? 1)%Z)%bool eqn:Hsell.
    + apply andb_prop in Hsell. destruct Hsell as [_ Hl]. apply Z.eqb_eq in Hl.
      destruct Hinv as [(_ & Hc)|(H0 & _)]; [|rewrite Hl in H0; discriminate H0].
      inversion H; subst; clear H.
      cbn [fst snd position shares entry_price capital trades append_trade].
      right. split; [reflexivity|].
      snoc_sell. lra.
    + inversion H; subst. exact Hinv.
Qed.

Lemma step_accounts init s p prev cur st st' :
  step s p prev cur st = Ok st' -> accounts_inv init st -> accounts_inv init st'.
Proof.
  unfold step, bind. intros H Hinv.
  destruct (execute _ _ _ _ _ _) as [st1|e] eqn:Hex; [|discriminate H].
  apply (execute_accounts init) in Hex.
  - inversion H; subst; clear H. unfold accounts_inv in *.
    cbn [fst snd position shares entry_price capital trades append_equity].
    exact Hex.
  - apply signals_buy_flat.
  - destruct st; exact Hinv.
Qed.

Lemma walk_accounts init s p rest : forall prev st st',
  walk s p prev rest st = Ok st' -> accounts_inv init st -> accounts_inv init st'.
Proof.
  induction rest as [|cur rest IH]; intros prev st st' H Hinv.
  - inversion H; subst. exact Hinv.
  - cbn [walk] in H. unfold bind in H.
    destruct (step s p prev cur st) as [st1|e] eqn:Hs; [|discriminate H].
    eapply IH; [exact H|]. eapply step_accounts; eassumption.
Qed.

Lemma run_walk_accounts self s p st :
  run_walk self s p = Ok st -> accounts_inv (initial_capital self) st.
Proof.
  unfold run_walk, walk_bars. intros H.
  assert (H0 : accounts_inv (initial_capital self) (reset self)).
  { right. split; [reflexivity|].
    change (initial_capital self == initial_capital self + 0). lra. }
  destruct (data self) as [|first rest].
  - inversion H; subst. exact H0.
  - eapply walk_accounts; eassumption.
Qed.

Lemma run_frame_books self s p st :
  run_frame self s p = Ok st ->
  capital (snd st) == initial_capital self + realized_profit (trades (fst st)).
Proof.
  unfold run_frame, bind. intros H.
  destruct (run_walk self s p) as [st0|e] eqn:Hw; [|discriminate H].
  inversion H; subst; clear H.
  apply run_walk_accounts in Hw. unfold accounts_inv in Hw.
  unfold close_open_positions.
  destruct Hw as [(H1 & Hc)|(H0 & Hc)].
  - rewrite H1. cbn [Z.eqb Pos.eqb fst snd capital trades append_trade].
    snoc_sell. lra.
  - rewrite H0. cbn [Z.eqb]. exact Hc.
Qed.

(** At the [return] of every completed run the cash is the initial
    capital plus the sum of the realized profits of the returned ledger:
    nothing is gained or lost outside the SELL entries. No assumption on
    the frame or the strategy name. *)
Theorem cash_is_capital_plus_realized self s p st :
  run_frame self s p = Ok st ->
  capital (snd st) == initial_capital self + realized_profit (trades (fst st)).
Proof. exact (run_frame_books self s p st). Qed.

(** [cash_is_capital_plus_realized] on the run over the two bars
    100, 110. *)
Lemma cash_is_capital_plus_realized_witness :
  capital (snd (after_100_110, locals_after_100_110)) ==
    initial_capital (new_engine 100000 rows_100_110)
    + realized_profit (trades (fst (after_100_110, locals_after_100_110))).
Proof.
  apply (cash_is_capital_plus_realized (new_engine 100000 rows_100_110)
           "MACD_CROSSOVER" [] (after_100_110, locals_after_100_110)).
  reflexivity.
Defined.

(** ** The last equity point *)

Lemma last_map {A B : Type} (f : A -> B) (l : list A) : forall d,
  last (map f l) (f d) = f (last l d).
Proof.
  induction l as [|x l IH]; intros d; [reflexivity|].
  destruct l as [|y l]; [reflexivity|]. exact (IH d).
Qed.

Lemma step_last_point s p prev cur st st' :
  step s p prev cur st = Ok st' ->
  equity_curve (fst st') =
    equity_curve (fst st)
    ++ [{| e_date := Date cur; e_equity := equity (snd st');
           e_position := position (snd st') |}] /\
  equity (snd st') =
    (if (position (snd st') =? 1)%Z
     then capital (snd st') + inject_Z (shares (snd st')) * Close cur
     else capital (snd st')).
Proof.
  intros H. split; [apply (step_curve _ _ _ _ _ _ H)|].
  unfold step, bind in H.
  destruct (execute _ _ _ _ _ _) as [st1|e]; [|discriminate H].
  inversion H; subst; clear H. reflexivity.
Qed.

Lemma walk_last_point s p rest : forall prev st st',
  rest <> [] ->
  walk s p prev rest st = Ok st' ->
  (exists pts,
     equity_curve (fst st') =
       pts ++ [{| e_date := Date (last rest prev); e_equity := equity (snd st');
                  e_position := position (snd st') |}]) /\
  equity (snd st') =
    (if (position (snd st') =? 1)%Z
     then capital (snd st') + inject_Z (shares (snd st')) * Close (last rest prev)
     else capital (snd st')).
Proof.
  induction rest as [|cur rest IH]; intros prev st st' Hne H; [contradiction|].
  cbn [walk] in H. unfold bind in H.
  destruct (step s p prev cur st) as [st1|e] eqn:Hs; [|discriminate H].
  rewrite last_cons_default.
  destruct rest as [|cur' rest'].
  - inversion H; subst; clear H. apply step_last_point in Hs.
    destruct Hs as [Hc He]. split; [eexists; exact Hc|exact He].
  - apply IH in H; [exact H|discriminate].
Qed.

Lemma run_frame_last_point self s p st :
  (2 <= List.length (data self))%nat ->
  run_frame self s p = Ok st ->
  exists pts pt,
    equity_curve (fst st) = pts ++ [pt] /\
    e_date pt = last (map Date (data self)) 0%nat /\
    e_equity pt = capital (snd st).
Proof.
  intros Hlen H. unfold run_frame, bind in H.
  destruct (run_walk self s p) as [st0|e] eqn:Hw; [|discriminate H].
  inversion H; subst; clear H.
  unfold run_walk, walk_bars in Hw.
  destruct (data self) as [|first rest] eqn:Hd; [cbn in Hlen; lia|].
  assert (Hne : rest <> []) by (destruct rest; [cbn in Hlen; lia|discriminate]).
  pose proof (walk_frame _ _ _ _ _ _ Hw) as (Hd0 & _).
  cbn [reset fst data reset_trades] in Hd0.
  apply walk_last_point in Hw; [|exact Hne].
  destruct Hw as [(pts & Hc) He].
  rewrite close_open_positions_curve.
  exists pts. eexists. split; [exact Hc|].
  cbn [e_date e_equity]. split.
  - change (map Date (first :: rest)) with (Date first :: map Date rest).
    rewrite last_cons_default, last_map. reflexivity.
  - rewrite He. unfold close_open_positions.
    destruct (position (snd st0) =? 1)%Z; [|reflexivity].
    cbn [snd capital]. rewrite Hd0, Hd.
    change (map Close (first :: rest)) with (Close first :: map Close rest).
    rewrite last_cons_default, last_map. reflexivity.
Qed.

(** When the frame has at least two bars, the equity of the last point
    of the returned curve is the cash at the [return]: a position still
    open on the final bar is valued at the close at which the closing
    SELL then sells it. *)
Theorem last_equity_is_final_cash self s p st :
  (2 <= List.length (data self))%nat ->
  run_frame self s p = Ok st ->
  exists pts pt,
    equity_curve (fst st) = pts ++ [pt] /\
    e_date pt = last (map Date (data self)) 0%nat /\
    e_equity pt = capital (snd st).
Proof. exact (run_frame_last_point self s p st). Qed.

(** [last_equity_is_final_cash] on the run over the two bars 100, 110. *)
Lemma last_equity_is_final_cash_witness :
  exists pts pt,
    equity_curve (fst (after_100_110, locals_after_100_110)) = pts ++ [pt] /\
    e_date pt = last (map Date (data (new_engine 100000 rows_100_110))) 0%nat /\
    e_equity pt = capital (snd (after_100_110, locals_after_100_110)).
Proof.
  apply (last_equity_is_final_cash (new_engine 100000 rows_100_110)
           "MACD_CROSSOVER" [] (after_100_110, locals_after_100_110)).
  - cbn. lia.
  - reflexivity.
Defined.

(** ** The metrics of a completed run *)

Lemma calculate_metrics_some self m :
  calculate_metrics self = Ok (Some m) ->
  equity_curve self <> [] /\ trades self <> [] /\
  Initial_Capital m = initial_capital self /\
  Final_Equity m = last (map e_equity (equity_curve self)) 0 /\
  Total_Trades m = List.length (filter is_sell (trades self)) /\
  Profitable_Trades m =
    List.length (filter (fun t => is_sell t && profit_positive t) (trades self)) /\
  Win_Rate m =
    (if (0 <? Total_Trades m)%nat
     then Qnat (Profitable_Trades m) / Qnat (Total_Trades m) * 100 else 0) /\
  Average_Profit m =
    (if (0 <? Total_Trades m)%nat
     then Qmean (map (fun t => opt_or_0 (t_profit t)) (filter is_sell (trades self)))
     else 0) /\
  Max_Drawdown m =
    fmin_skipna
      (map2 (fun e mx => pct (e - mx) mx) (map e_equity (equity_curve self))
         (running_max (map e_equity (equity_curve self)))).
Proof.
  unfold calculate_metrics. intros H.
  destruct (equity_curve self) as [|p0 ps]; [discriminate H|].
  destruct (trades self) as [|t0 ts]; [discriminate H|].
  destruct (data self) as [|r0 rs]; [discriminate H|].
  inversion H; subst; clear H.
  cbn [Initial_Capital Final_Equity Total_Trades Profitable_Trades Win_Rate
       Average_Profit Max_Drawdown].
  repeat split; discriminate.
Qed.

Lemma filter_length_le {A : Type} (f : A -> bool) l :
  (List.length (filter f l) <= List.length l)%nat.
Proof.
  induction l as [|x l IH]; cbn; [lia|]. destruct (f x); cbn; lia.
Qed.

Lemma filter_and_length_le {A : Type} (f g : A -> bool) l :
  (List.length (filter (fun x => f x && g x) l) <= List.length (filter f l))%nat.
Proof.
  induction l as [|x l IH]; cbn; [lia|].
  destruct (f x), (g x); cbn; lia.
Qed.

Lemma Qnat_le a b : (a <= b)%nat -> Qnat a <= Qnat b.
Proof. intros H. unfold Qnat, Qle, inject_Z. cbn. lia. Qed.

Lemma ratio_pct_range a b :
  (a <= b)%nat -> (0 < b)%nat ->
  0 <= Qnat a / Qnat b * 100 /\ Qnat a / Qnat b * 100 <= 100.
Proof.
  intros Hab Hb.
  pose proof (Qnat_pos b Hb) as Hpb. pose proof (Qnat_nonneg a) as Hpa.
  pose proof (Qnat_le a b Hab) as Hle.
  assert (H0 : 0 <= Qnat a / Qnat b).
  { apply Qdiv_nonneg; [exact Hpa|]. apply Qlt_le_weak. exact Hpb. }
  assert (H1 : Qnat a / Qnat b <= 1).
  { apply Qle_shift_div_r; [exact Hpb|]. lra. }
  split; lra.
Qed.

(** Whenever [calculate_metrics] returns metrics, on any engine state,
    the profitable trades are among the counted trades and the win rate
    lies between 0 and 100. *)
Theorem win_rate_range self m :
  calculate_metrics self = Ok (Some m) ->
  (Profitable_Trades m <= Total_Trades m)%nat /\
  0 <= Win_Rate m /\ Win_Rate m <= 100.
Proof.
  intros H. apply calculate_metrics_some in H.
  destruct H as (_ & _ & _ & _ & Ht & Hp & Hw & _).
  assert (Hle : (Profitable_Trades m <= Total_Trades m)%nat).
  { rewrite Ht, Hp. apply filter_and_length_le. }
  split; [exact Hle|]. rewrite Hw.
  destruct (0 <? Total_Trades m)%nat eqn:E.
  - apply Nat.ltb_lt in E. apply ratio_pct_range; assumption.
  - split; lra.
Qed.

(** [win_rate_range] on the run over the two bars 100, 110, whose single
    round trip makes no profit. *)
Lemma win_rate_range_witness :
  exists m,
    calculate_metrics after_100_110 = Ok (Some m) /\
    (Profitable_Trades m <= Total_Trades m)%nat /\
    0 <= Win_Rate m /\ Win_Rate m <= 100.
Proof.
  eexists. split; [reflexivity|].
  eapply (win_rate_range after_100_110). reflexivity.
Defined.

Lemma paired_length ts :
  paired ts -> List.length ts = (2 * count_side SELL ts)%nat.
Proof.
  unfold count_side. induction 1 as [|b s rest (Hb & Hs & _) _ IH].
  - reflexivity.
  - cbn [filter List.length]. rewrite Hb, Hs. cbn [Side_eqb List.length].
    rewrite IH. lia.
Qed.

Lemma run_strategy_frame_inv self s p eng' :
  run_strategy self s p = Ok eng' ->
  exists l, run_frame self s p = Ok (eng', l).
Proof.
  unfold run_strategy, bind. intros H.
  destruct (run_frame self s p) as [[e l]|e]; [|discriminate H].
  inversion H; subst. exists l. reflexivity.
Qed.

Lemma short_frame_no_trades self s p eng' :
  (List.length (data self) <= 1)%nat ->
  run_strategy self s p = Ok eng' -> trades eng' = [].
Proof.
  intros Hlen H. apply run_strategy_inv in H. destruct H as (st & Hw & ->).
  unfold run_walk, walk_bars in Hw.
  destruct (data self) as [|first rest].
  - inversion Hw; subst. reflexivity.
  - destruct rest as [|r rest]; [|cbn in Hlen; lia].
    inversion Hw; subst. reflexivity.
Qed.

(** The metrics of a completed run agree with its ledger. Whenever
    [calculate_metrics] returns metrics after [run_strategy], the final
    equity is the initial capital plus the realized profits, that sum is
    the average profit times the number of trades, and the number of
    trades is positive and half the length of the ledger. *)
Theorem metrics_agree_with_ledger self s p eng' m :
  run_strategy self s p = Ok eng' ->
  calculate_metrics eng' = Ok (Some m) ->
  Final_Equity m == Initial_Capital m + realized_profit (trades eng') /\
  Average_Profit m * Qnat (Total_Trades m) == realized_profit (trades eng') /\
  (0 < Total_Trades m)%nat /\
  List.length (trades eng') = (2 * Total_Trades m)%nat.
Proof.
  intros Hrun Hm.
  apply calculate_metrics_some in Hm.
  destruct Hm as (_ & Hne & Hi & Hf & Ht & _ & _ & Ha & _).
  pose proof (run_strategy_paired _ _ _ _ Hrun) as Hp.
  pose proof (paired_length _ Hp) as Hlen.
  change (count_side SELL (trades eng')) with
    (List.length (filter is_sell (trades eng'))) in Hlen.
  rewrite <- Ht in Hlen.
  assert (Hpos : (0 < Total_Trades m)%nat).
  { destruct (trades eng') as [|t ts]; [contradiction|]. cbn in Hlen. lia. }
  destruct (run_strategy_frame_inv _ _ _ _ Hrun) as [l Hfr].
  pose proof (run_frame_books _ _ _ _ Hfr) as Hcash.
  cbn [fst snd] in Hcash.
  assert (H2 : (2 <= List.length (data self))%nat).
  { destruct (Nat.le_gt_cases (List.length (data self)) 1) as [Hs|Hs]; [|lia].
    exfalso. apply Hne. eapply short_frame_no_trades; eassumption. }
  destruct (run_frame_last_point _ _ _ _ H2 Hfr) as (pts & pt & Hc & _ & He).
  cbn [fst snd] in Hc, He.
  destruct (run_strategy_frame _ _ _ _ Hrun) as (_ & Hic).
  split; [|split; [|split]].
  - rewrite Hf, Hi, Hc, map_app. cbn [map]. rewrite last_last, He, Hic.
    exact Hcash.
  - rewrite Ha. replace (0 <? Total_Trades m)%nat with true
      by (symmetry; apply Nat.ltb_lt; exact Hpos).
    unfold Qmean, realized_profit. rewrite length_map, <- Ht.
    pose proof (Qnat_pos _ Hpos) as Hq.
    field. intros E. rewrite E in Hq. revert Hq. apply Qlt_irrefl.
  - exact Hpos.
  - exact Hlen.
Qed.

(** [metrics_agree_with_ledger] on the run over the two bars 100, 110. *)
Lemma metrics_agree_with_ledger_witness :
  exists m,
    calculate_metrics after_100_110 = Ok (Some m) /\
    Final_Equity m == Initial_Capital m + realized_profit (trades after_100_110) /\
    Average_Profit m * Qnat (Total_Trades m)
      == realized_profit (trades after_100_110) /\
    (0 < Total_Trades m)%nat /\
    List.length (trades after_100_110) = (2 * Total_Trades m)%nat.
Proof.
  eexists. split; [reflexivity|].
  eapply (metrics_agree_with_ledger (new_engine 100000 rows_100_110)
            "MACD_CROSSOVER" [] after_100_110).
  - reflexivity.
  - reflexivity.
Defined.

(** ** The maximum drawdown *)

Lemma Qmax_ge_l m x : m <= Qmax m x.
Proof.
  unfold Qmax. destruct (Qle_bool m x) eqn:E.
  - apply Qle_bool_iff. exact E.
  - apply Qle_refl.
Qed.

Lemma Qmax_ge_r m x : x <= Qmax m x.
Proof.
  unfold Qmax. destruct (Qle_bool m x) eqn:E; [apply Qle_refl|].
  destruct (Qlt_le_dec x m) as [H|H]; [apply Qlt_le_weak; exact H|].
  apply Qle_bool_iff in H. congruence.
Qed.

Lemma pct_drawdown_ok e mx :
  0 < e -> e <= mx -> drawdown_ok (pct (e - mx) mx).
Proof.
  intros He Hle. assert (Hm : 0 < mx) by lra.
  unfold pct, fdiv. rewrite (Qeq_bool_pos_false _ Hm). cbn [fmul].
  eexists. split; [reflexivity|].
  assert (H1 : (e - mx) / mx <= 0).
  { apply Qle_shift_div_r; [exact Hm|]. lra. }
  assert (H2 : - (1) <= (e - mx) / mx).
  { apply Qle_shift_div_l; [exact Hm|]. lra. }
  split; lra.
Qed.

Lemma drawdowns_from_ok xs : forall mx,
  0 < mx ->
  Forall (fun e => 0 < e) xs ->
  Forall drawdown_ok
    (map2 (fun e m => pct (e - m) m) xs (running_max_from mx xs)).
Proof.
  induction xs as [|x xs IH]; intros mx Hm Hall; [constructor|].
  inversion Hall as [|? ? Hx Hxs]; subst.
  cbn [running_max_from map2]. constructor.
  - apply pct_drawdown_ok; [exact Hx|apply Qmax_ge_r].
  - apply IH; [|exact Hxs]. pose proof (Qmax_ge_l mx x). lra.
Qed.

Lemma fmin_skipna_ok xs :
  xs <> [] -> Forall drawdown_ok xs -> drawdown_ok (fmin_skipna xs).
Proof.
  induction xs as [|x xs IH]; intros Hne Hall; [contradiction|].
  inversion Hall as [|? ? Hx Hxs]; subst.
  destruct Hx as (d & -> & Hd). cbn [fmin_skipna].
  destruct xs as [|y ys].
  - cbn. exists d. auto.
  - assert (Hrec : drawdown_ok (fmin_skipna (y :: ys))) by (apply IH; [discriminate|exact Hxs]).
    destruct Hrec as (d' & Hd' & Hr). rewrite Hd'.
    destruct (flt (Fin d') (Fin d)); [exists d'|exists d]; auto.
Qed.

(** Whenever [calculate_metrics] returns metrics for an equity curve
    whose values are all positive, the maximum drawdown is a finite
    percentage between -100 and 0: never NaN and never positive. *)
Theorem max_drawdown_range self m :
  Forall (fun pt => 0 < e_equity pt) (equity_curve self) ->
  calculate_metrics self = Ok (Some m) ->
  exists d, Max_Drawdown m = Fin d /\ - (100) <= d /\ d <= 0.
Proof.
  intros Hall H. apply calculate_metrics_some in H.
  destruct H as (Hne & _ & _ & _ & _ & _ & _ & _ & Hdd).
  rewrite Hdd. apply fmin_skipna_ok.
  - destruct (equity_curve self) as [|p0 ps]; [contradiction|]. discriminate.
  - assert (Hq : Forall (fun e => 0 < e) (map e_equity (equity_curve self))).
    { apply Forall_map. exact Hall. }
    destruct (map e_equity (equity_curve self)) as [|x xs]; [constructor|].
    inversion Hq as [|? ? Hx Hxs]; subst.
    cbn [running_max map2]. constructor.
    + apply pct_drawdown_ok; [exact Hx|apply Qle_refl].
    + apply drawdowns_from_ok; assumption.
Qed.

(** [max_drawdown_range] on the run over the two bars 100, 110. *)
Lemma max_drawdown_range_witness :
  exists m,
    calculate_metrics after_100_110 = Ok (Some m) /\
    exists d, Max_Drawdown m = Fin d /\ - (100) <= d /\ d <= 0.
Proof.
  eexists. split; [reflexivity|].
  eapply (max_drawdown_range after_100_110).
  - repeat constructor.
  - reflexivity.
Defined.

(** ** load_data: rows and bars *)

Lemma Ok_inj {A : Type} (a b : A) : Ok a = Ok b -> a = b.
Proof. intros H. congruence. Qed.

Lemma load_data_nonempty bb_std bars :
  bars <> [] ->
  load_data bb_std bars =
    Ok (map (fun i =>
               let middle := nth i (rolling_mean 20 (map snd bars)) NaN in
               let dev := fmul (nth i bb_std NaN) (Fin 2) in
               {| Date := nth i (map fst bars) 0%nat;
                  Close := nth i (map snd bars) 0;
                  MA20 := nth i (rolling_mean 20 (map snd bars)) NaN;
                  MA50 := nth i (rolling_mean 50 (map snd bars)) NaN;
                  RSI := nth i (_calculate_rsi (map snd bars) 14) NaN;
                  MACD := Fin (nth i (macd_line (map snd bars)) 0);
                  MACD_signal :=
                    Fin (nth i (ewm_mean 9 (macd_line (map snd bars))) 0);
                  BB_middle := middle;
                  BB_upper := fadd middle dev;
                  BB_lower := fsub middle dev |})
            (seq 0 (List.length bars))).
Proof.
  intros Hne. destruct bars as [|b bars']; [contradiction|]. reflexivity.
Qed.

Lemma load_data_inv bb_std bars rows :
  load_data bb_std bars = Ok rows ->
  bars <> [] /\
  forall i r, nth_error rows i = Some r ->
    (i < List.length bars)%nat /\
    Date r = nth i (map fst bars) 0%nat /\
    Close r = nth i (map snd bars) 0 /\
    MA20 r = nth i (rolling_mean 20 (map snd bars)) NaN /\
    MA50 r = nth i (rolling_mean 50 (map snd bars)) NaN /\
    RSI r = nth i (_calculate_rsi (map snd bars) 14) NaN /\
    BB_lower r = fsub (nth i (rolling_mean 20 (map snd bars)) NaN)
                   (fmul (nth i bb_std NaN) (Fin 2)) /\
    BB_upper r = fadd (nth i (rolling_mean 20 (map snd bars)) NaN)
                   (fmul (nth i bb_std NaN) (Fin 2)).
Proof.
  intros H.
  assert (Hne : bars <> []).
  { intros ->. discriminate H. }
  split; [exact Hne|].
  rewrite (load_data_nonempty _ _ Hne) in H. apply Ok_inj in H. subst rows.
  intros i r Hr. rewrite nth_error_map in Hr.
  destruct (nth_error (seq 0 (List.length bars)) i) as [k|] eqn:E;
    [|discriminate Hr].
  assert (Hi : (i < List.length bars)%nat).
  { assert (Hs : nth_error (seq 0 (List.length bars)) i <> None) by congruence.
    apply nth_error_Some in Hs. rewrite length_seq in Hs. exact Hs. }
  rewrite (nth_error_nth' _ 0%nat) in E by (rewrite length_seq; exact Hi).
  rewrite seq_nth in E by exact Hi. cbn [Nat.add] in E.
  inversion E; subst k; clear E.
  cbn [option_map] in Hr. apply (f_equal (fun o => match o with Some x => x | None => r end)) in Hr.
  subst r. cbn [Date Close MA20 MA50 RSI BB_lower BB_upper].
  repeat split. exact Hi.
Qed.

(** ** Frames on which a strategy cannot trade *)

Lemma walk_quiet s p rest : forall prev self c,
  Forall (no_signal s p) rest ->
  walk s p prev rest (self, idle_locals c) =
    Ok ({| initial_capital := initial_capital self; data := data self;
           trades := trades self;
           equity_curve := equity_curve self ++ map (idle_point c) rest |},
        idle_locals c).
Proof.
  induction rest as [|cur rest IH]; intros prev self c Hq.
  - cbn. rewrite app_nil_r. destruct self; reflexivity.
  - inversion Hq as [|? ? Hc Hr]; subst.
    cbn [walk]. unfold step. rewrite (Hc prev _).
    cbn [fst snd execute andb bind position idle_locals capital Z.eqb
         entry_price shares].
    fold (idle_locals c).
    rewrite IH by exact Hr.
    cbn [append_equity initial_capital data trades equity_curve map].
    rewrite <- app_assoc. reflexivity.
Qed.

Lemma run_quiet self s p :
  Forall (no_signal s p) (tl (data self)) ->
  run_strategy self s p = Ok (idle_result self).
Proof.
  intros Hq. unfold run_strategy, run_frame, run_walk, walk_bars, reset, idle_result.
  fold (idle_locals (initial_capital self)).
  destruct (data self) as [|first rest] eqn:Hd.
  - cbn. rewrite app_nil_r. unfold reset_trades. rewrite Hd. reflexivity.
  - cbn [tl] in Hq. rewrite (walk_quiet s p rest first _ _ Hq).
    cbn. rewrite Hd. reflexivity.
Qed.

Lemma flt_nan_r a : flt a NaN = false.
Proof. destruct a; reflexivity. Qed.

Lemma fle_nan_r a : fle a NaN = false.
Proof. destruct a; reflexivity. Qed.

Lemma no_signal_ma cur p : MA50 cur = NaN -> no_signal "MA_CROSSOVER" p cur.
Proof.
  intros Hn prev pos. unfold signals.
  change (String.eqb "MA_CROSSOVER" "MA_CROSSOVER") with true. cbv iota.
  unfold fgt, fge. rewrite Hn.
  change (flt NaN (if Qeq_bool (params_get p "short_ma" 20) 20
                   then MA20 cur else NaN)) with false.
  rewrite flt_nan_r, !andb_false_r. reflexivity.
Qed.

Lemma no_signal_rsi cur p : RSI cur = NaN -> no_signal "RSI_OVERSOLD" p cur.
Proof.
  intros Hn prev pos. unfold signals.
  change (String.eqb "RSI_OVERSOLD" "MA_CROSSOVER") with false.
  change (String.eqb "RSI_OVERSOLD" "RSI_OVERSOLD") with true. cbv iota.
  unfold fgt. rewrite Hn, flt_nan_r.
  change (flt NaN (Fin (params_get p "oversold" 30))) with false.
  reflexivity.
Qed.

Lemma no_signal_bb cur p :
  BB_lower cur = NaN -> BB_upper cur = NaN -> no_signal "BOLLINGER_BANDS" p cur.
Proof.
  intros Hl Hu prev pos. unfold signals.
  change (String.eqb "BOLLINGER_BANDS" "MA_CROSSOVER") with false.
  change (String.eqb "BOLLINGER_BANDS" "RSI_OVERSOLD") with false.
  change (String.eqb "BOLLINGER_BANDS" "MACD_CROSSOVER") with false.
  change (String.eqb "BOLLINGER_BANDS" "BOLLINGER_BANDS") with true. cbv iota.
  unfold fge. rewrite Hl, Hu, fle_nan_r.
  change (fle NaN (Fin (Close cur))) with false. reflexivity.
Qed.

Lemma nth_nan (l : list fval) i :
  (forall v, nth_error l i = Some v -> v = NaN) -> nth i l NaN = NaN.
Proof.
  intros H. destruct (nth_error l i) as [v|] eqn:E.
  - rewrite (nth_error_nth _ _ NaN E). apply H. reflexivity.
  - apply nth_overflow. apply nth_error_None. exact E.
Qed.

Lemma rolling_mean_warmup w xs i :
  (i + 1 < w)%nat -> nth i (rolling_mean w xs) NaN = NaN.
Proof.
  intros Hi. apply nth_nan. intros v Hv.
  assert (Hlt : (i < List.length xs)%nat).
  { rewrite <- (rolling_mean_length w). apply nth_error_Some. congruence. }
  rewrite (rolling_mean_nth _ _ _ Hlt) in Hv.
  replace (i + 1 <? w)%nat with true in Hv by (symmetry; apply Nat.ltb_lt; exact Hi).
  congruence.
Qed.

Lemma rsi_nth_error prices period i v :
  nth_error (_calculate_rsi prices period) i = Some v ->
  exists g l,
    nth_error (avg_gain prices period) i = Some g /\
    nth_error (avg_loss prices period) i = Some l /\
    v = rsi_of_rs (fdiv g l).
Proof.
  unfold _calculate_rsi. rewrite nth_error_map, map2_nth_error.
  destruct (nth_error (avg_gain prices period) i) as [g|]; [|discriminate].
  destruct (nth_error (avg_loss prices period) i) as [l|]; [|discriminate].
  cbn. intros H. inversion H. eauto.
Qed.

Lemma rsi_warmup prices period i :
  (i + 1 < period)%nat -> nth i (_calculate_rsi prices period) NaN = NaN.
Proof.
  intros Hi. apply nth_nan. intros v Hv.
  apply rsi_nth_error in Hv. destruct Hv as (g & l & Hg & _ & ->).
  unfold avg_gain in Hg.
  assert (Hlt : (i < List.length (gain_series prices))%nat).
  { rewrite <- (rolling_mean_length period). apply nth_error_Some. congruence. }
  rewrite (rolling_mean_nth _ _ _ Hlt) in Hg.
  replace (i + 1 <? period)%nat with true in Hg
    by (symmetry; apply Nat.ltb_lt; exact Hi).
  inversion Hg; subst. reflexivity.
Qed.

Lemma rows_forall (P : Row -> Prop) rows :
  (forall i r, nth_error rows i = Some r -> P r) -> Forall P (tl rows).
Proof.
  intros H. apply Forall_forall. intros r Hin.
  assert (Hin' : In r rows) by (destruct rows; [exact Hin|right; exact Hin]).
  apply In_nth_error in Hin'. destruct Hin' as [i Hi]. eapply H. exact Hi.
Qed.

(** A frame shorter than the window of a strategy never trades. On the
    frame that [load_data] builds from fewer than 50 bars MA_CROSSOVER
    returns an empty ledger and a flat equity curve; so does RSI_OVERSOLD
    on fewer than 14 bars and BOLLINGER_BANDS on fewer than 20, for every
    capital and every parameter override. *)
Theorem short_frames_never_trade bb_std bars rows cap p :
  load_data bb_std bars = Ok rows ->
  ((List.length bars < 50)%nat ->
   run_strategy (new_engine cap rows) "MA_CROSSOVER" p =
     Ok (idle_result (new_engine cap rows))) /\
  ((List.length bars < 14)%nat ->
   run_strategy (new_engine cap rows) "RSI_OVERSOLD" p =
     Ok (idle_result (new_engine cap rows))) /\
  ((List.length bars < 20)%nat ->
   run_strategy (new_engine cap rows) "BOLLINGER_BANDS" p =
     Ok (idle_result (new_engine cap rows))).
Proof.
  intros Hload. apply load_data_inv in Hload. destruct Hload as [_ Hrows].
  split; [|split]; intros Hlen; apply run_quiet; cbn [data new_engine];
    apply rows_forall; intros i r Hr;
    destruct (Hrows i r Hr) as (Hi & _ & _ & _ & Hma & Hrsi & Hlo & Hup).
  - apply no_signal_ma. rewrite Hma. apply rolling_mean_warmup. lia.
  - apply no_signal_rsi. rewrite Hrsi. apply rsi_warmup. lia.
  - apply no_signal_bb.
    + rewrite Hlo, rolling_mean_warmup by lia. reflexivity.
    + rewrite Hup, rolling_mean_warmup by lia. reflexivity.
Qed.

(** [short_frames_never_trade] on the two bars 100, 110. *)
Lemma short_frames_never_trade_witness :
  ((List.length bars_100_110 < 50)%nat ->
   run_strategy (new_engine 100000 rows_100_110) "MA_CROSSOVER" [] =
     Ok (idle_result (new_engine 100000 rows_100_110))) /\
  ((List.length bars_100_110 < 14)%nat ->
   run_strategy (new_engine 100000 rows_100_110) "RSI_OVERSOLD" [] =
     Ok (idle_result (new_engine 100000 rows_100_110))) /\
  ((List.length bars_100_110 < 20)%nat ->
   run_strategy (new_engine 100000 rows_100_110) "BOLLINGER_BANDS" [] =
     Ok (idle_result (new_engine 100000 rows_100_110))).
Proof.
  apply (short_frames_never_trade (repeat NaN 2) bars_100_110 rows_100_110
           100000 []).
  reflexivity.
Defined.

(** ** The range of the RSI *)

Lemma loss_series_nonneg prices : Forall (fun x => 0 <= x) (loss_series prices).
Proof.
  unfold loss_series. apply Forall_forall. intros x Hx.
  apply in_map_iff in Hx. destruct Hx as (d & <- & _).
  destruct d as [q|]; cbn [where_or_0]; [|lra].
  destruct (Qlt_bool q 0) eqn:E; [|lra].
  apply Qlt_bool_true in E. lra.
Qed.

Lemma rolling_mean_nonneg w xs i a :
  Forall (fun x => 0 <= x) xs ->
  nth_error (rolling_mean w xs) i = Some (Fin a) -> 0 <= a.
Proof.
  intros Hall Ha. apply rolling_mean_fin in Ha. destruct Ha as (_ & _ & ->).
  apply Qdiv_nonneg; [|apply Qnat_nonneg].
  apply Qsum_nonneg. apply Forall_window. exact Hall.
Qed.

Lemma rolling_mean_shape w xs ys i g l :
  nth_error (rolling_mean w xs) i = Some g ->
  nth_error (rolling_mean w ys) i = Some l ->
  (g = NaN /\ l = NaN) \/ (exists a b, g = Fin a /\ l = Fin b).
Proof.
  intros Hg Hl.
  assert (Hi : (i < List.length xs)%nat).
  { rewrite <- (rolling_mean_length w). apply nth_error_Some. congruence. }
  assert (Hj : (i < List.length ys)%nat).
  { rewrite <- (rolling_mean_length w). apply nth_error_Some. congruence. }
  rewrite (rolling_mean_nth _ _ _ Hi) in Hg.
  rewrite (rolling_mean_nth _ _ _ Hj) in Hl.
  destruct (i + 1 <? w)%nat; inversion Hg; inversion Hl; eauto.
Qed.

Lemma rsi_of_ratio_range g l :
  0 <= g -> 0 <= l ->
  nan_or_within 0 100 (rsi_of_rs (fdiv (Fin g) (Fin l))).
Proof.
  intros Hg Hl. unfold fdiv.
  destruct (Qeq_bool l 0) eqn:El.
  - unfold inf_of_sign. destruct (Qlt_bool 0 g) eqn:E1.
    + cbn. split; lra.
    + destruct (Qlt_bool g 0) eqn:E2; [|exact I].
      apply Qlt_bool_true in E2. lra.
  - assert (Hlp : 0 < l).
    { destruct (Qlt_le_dec 0 l) as [H|H]; [exact H|].
      assert (E : l == 0) by lra. apply Qeq_bool_iff in E. congruence. }
    assert (Hr : 0 <= g / l).
    { apply Qdiv_nonneg; [exact Hg|lra]. }
    unfold rsi_of_rs. cbn [fadd fdiv].
    assert (Hq : 0 < 1 + g / l) by lra.
    rewrite (Qeq_bool_pos_false _ Hq). cbn [fsub fopp fadd nan_or_within].
    assert (H1 : 0 <= 100 / (1 + g / l)).
    { apply Qdiv_nonneg; lra. }
    assert (H2 : 100 / (1 + g / l) <= 100).
    { apply Qle_shift_div_r; [exact Hq|]. lra. }
    split; lra.
Qed.

(** Every entry of the RSI column is NaN or a finite value between 0
    and 100; it is never an infinity. *)
Theorem rsi_range prices period i v :
  nth_error (_calculate_rsi prices period) i = Some v ->
  nan_or_within 0 100 v.
Proof.
  intros Hv. apply rsi_nth_error in Hv.
  destruct Hv as (g & l & Hg & Hl & ->).
  unfold avg_gain in Hg. unfold avg_loss in Hl.
  destruct (rolling_mean_shape _ _ _ _ _ _ Hg Hl)
    as [(-> & ->)|(a & b & -> & ->)]; [exact I|].
  apply rsi_of_ratio_range.
  - eapply rolling_mean_nonneg; [apply gain_series_nonneg|exact Hg].
  - eapply rolling_mean_nonneg; [apply loss_series_nonneg|exact Hl].
Qed.

(** [rsi_range] on the rising closes at index 14, where the RSI is 100. *)
Lemma rsi_range_witness : nan_or_within 0 100 (Fin 100).
Proof.
  apply (rsi_range rising_prices 14 14 (Fin 100)). reflexivity.
Defined.

(** ** RSI_OVERSOLD on a constant series *)

Lemma diff_from_constant c n : diff_from c (repeat c n) = repeat (Some (c - c)) n.
Proof.
  induction n as [|n IH]; [reflexivity|]. cbn [repeat diff_from]. now rewrite IH.
Qed.

Lemma Qlt_bool_irrefl_diff c : Qlt_bool 0 (c - c) = false /\ Qlt_bool (c - c) 0 = false.
Proof.
  split.
  - destruct (Qlt_bool 0 (c - c)) eqn:E; [|reflexivity].
    apply Qlt_bool_true in E. lra.
  - destruct (Qlt_bool (c - c) 0) eqn:E; [|reflexivity].
    apply Qlt_bool_true in E. lra.
Qed.

Lemma constant_gains_zero c n :
  Forall (fun x => x == 0) (gain_series (repeat c n)) /\
  Forall (fun x => x == 0) (loss_series (repeat c n)).
Proof.
  destruct (Qlt_bool_irrefl_diff c) as [Hg Hl].
  unfold gain_series, loss_series, diff.
  destruct n as [|n]; [split; constructor|].
  cbn [repeat]. rewrite diff_from_constant. cbn [map where_or_0].
  split; (constructor; [reflexivity|]); apply Forall_forall; intros x Hx;
    apply in_map_iff in Hx; destruct Hx as (d & <- & Hd);
    apply repeat_spec in Hd; subst d; cbn [where_or_0].
  - rewrite Hg. reflexivity.
  - rewrite Hl. reflexivity.
Qed.

Lemma Qsum_zero xs : Forall (fun x => x == 0) xs -> Qsum xs == 0.
Proof.
  induction 1 as [|x xs Hx _ IH].
  - reflexivity.
  - change (x + Qsum xs == 0). lra.
Qed.

Lemma rolling_mean_of_zeros w xs i a :
  Forall (fun x => x == 0) xs ->
  nth_error (rolling_mean w xs) i = Some (Fin a) -> a == 0.
Proof.
  intros Hall Ha. apply rolling_mean_fin in Ha. destruct Ha as (_ & _ & ->).
  rewrite (Qsum_zero _ (Forall_window _ w xs i Hall)).
  unfold Qdiv. ring.
Qed.

Lemma rsi_constant c n i :
  nth i (_calculate_rsi (repeat c n) 14) NaN = NaN.
Proof.
  apply nth_nan. intros v Hv. apply rsi_nth_error in Hv.
  destruct Hv as (g & l & Hg & Hl & ->).
  destruct (constant_gains_zero c n) as [Hgz Hlz].
  unfold avg_gain in Hg. unfold avg_loss in Hl.
  destruct (rolling_mean_shape _ _ _ _ _ _ Hg Hl)
    as [(-> & ->)|(a & b & -> & ->)]; [reflexivity|].
  pose proof (rolling_mean_of_zeros _ _ _ _ Hgz Hg) as Ha.
  pose proof (rolling_mean_of_zeros _ _ _ _ Hlz Hl) as Hb.
  unfold fdiv. apply Qeq_bool_iff in Hb. rewrite Hb. unfold inf_of_sign.
  destruct (Qlt_bool 0 a) eqn:E1; [apply Qlt_bool_true in E1; lra|].
  destruct (Qlt_bool a 0) eqn:E2; [apply Qlt_bool_true in E2; lra|].
  reflexivity.
Qed.

(** On a series whose closes are all equal the RSI is NaN on every row,
    so RSI_OVERSOLD never trades, whatever the thresholds and the length
    of the series: the ledger is empty and the equity curve is flat. *)
Theorem rsi_oversold_idle_on_constant_series bb_std bars rows c cap p :
  load_data bb_std bars = Ok rows ->
  map snd bars = repeat c (List.length bars) ->
  Forall (fun r => RSI r = NaN) rows /\
  run_strategy (new_engine cap rows) "RSI_OVERSOLD" p =
    Ok (idle_result (new_engine cap rows)).
Proof.
  intros Hload Hc. apply load_data_inv in Hload. destruct Hload as [_ Hrows].
  assert (Hall : forall i r, nth_error rows i = Some r -> RSI r = NaN).
  { intros i r Hr. destruct (Hrows i r Hr) as (_ & _ & _ & _ & _ & Hrsi & _).
    rewrite Hrsi, Hc. apply rsi_constant. }
  split.
  - apply Forall_forall. intros r Hin. apply In_nth_error in Hin.
    destruct Hin as [i Hi]. eapply Hall. exact Hi.
  - apply run_quiet. cbn [data new_engine]. apply rows_forall.
    intros i r Hr. apply no_signal_rsi. eapply Hall. exact Hr.
Qed.

(** [rsi_oversold_idle_on_constant_series] on fifteen bars at 100. *)
Lemma rsi_oversold_idle_on_constant_series_witness :
  exists rows,
    load_data (repeat NaN 15) flat_bars = Ok rows /\
    Forall (fun r => RSI r = NaN) rows /\
    run_strategy (new_engine 100000 rows) "RSI_OVERSOLD" [] =
      Ok (idle_result (new_engine 100000 rows)).
Proof.
  eexists. split; [apply load_data_nonempty; discriminate|].
  eapply (rsi_oversold_idle_on_constant_series (repeat NaN 15) flat_bars _ 100
            100000 []).
  - apply load_data_nonempty. discriminate.
  - reflexivity.
Defined.

(** ** Moving averages stay within the range of the closes *)

Lemma convex_within a lo hi x y :
  0 <= a -> a <= 1 -> within lo hi x -> within lo hi y ->
  within lo hi ((1 - a) * x + a * y).
Proof.
  unfold within. intros Ha0 Ha1 [Hx1 Hx2] [Hy1 Hy2].
  assert (H1 : 0 <= (1 - a) * (x - lo)) by (apply Qmult_le_0_compat; lra).
  assert (H2 : 0 <= a * (y - lo)) by (apply Qmult_le_0_compat; lra).
  assert (H3 : 0 <= (1 - a) * (hi - x)) by (apply Qmult_le_0_compat; lra).
  assert (H4 : 0 <= a * (hi - y)) by (apply Qmult_le_0_compat; lra).
  assert (E1 : (1 - a) * x + a * y - lo == (1 - a) * (x - lo) + a * (y - lo))
    by ring.
  assert (E2 : hi - ((1 - a) * x + a * y) == (1 - a) * (hi - x) + a * (hi - y))
    by ring.
  split; lra.
Qed.

Lemma ewm_from_within a lo hi xs : forall prev,
  0 <= a -> a <= 1 -> within lo hi prev ->
  Forall (within lo hi) xs -> Forall (within lo hi) (ewm_from a prev xs).
Proof.
  induction xs as [|x xs IH]; intros prev Ha0 Ha1 Hp Hall; [constructor|].
  inversion Hall as [|? ? Hx Hxs]; subst. cbn [ewm_from].
  assert (Hy : within lo hi ((1 - a) * prev + a * x))
    by (apply convex_within; assumption).
  constructor; [exact Hy|]. apply IH; assumption.
Qed.

Lemma alpha_range span : 1 <= span -> 0 <= 2 / (span + 1) /\ 2 / (span + 1) <= 1.
Proof.
  intros Hs. split.
  - apply Qdiv_nonneg; lra.
  - apply Qle_shift_div_r; lra.
Qed.

Lemma ewm_mean_within span lo hi xs :
  1 <= span -> Forall (within lo hi) xs -> Forall (within lo hi) (ewm_mean span xs).
Proof.
  intros Hs Hall. destruct xs as [|x xs]; [constructor|].
  inversion Hall as [|? ? Hx Hxs]; subst. cbn [ewm_mean].
  destruct (alpha_range span Hs) as [Ha0 Ha1].
  constructor; [exact Hx|]. apply ewm_from_within; assumption.
Qed.

Lemma map2_minus_within lo hi xs : forall ys,
  Forall (within lo hi) xs -> Forall (within lo hi) ys ->
  Forall (within (lo - hi) (hi - lo)) (map2 Qminus xs ys).
Proof.
  induction xs as [|x xs IH]; intros ys Hx Hy; [constructor|].
  destruct ys as [|y ys]; [constructor|].
  inversion Hx as [|? ? [Hx1 Hx2] Hxs]; subst.
  inversion Hy as [|? ? [Hy1 Hy2] Hys]; subst.
  cbn [map2]. constructor; [unfold within; split; lra|]. apply IH; assumption.
Qed.

(** An exponential moving average with a span of at least 1 never leaves
    the range of the closes it averages; so the MACD line, the difference
    of the spans 12 and 26, stays within plus and minus the width of that
    range, and so does its signal line. *)
Theorem ema_within_price_range span lo hi close :
  1 <= span ->
  Forall (within lo hi) close ->
  Forall (within lo hi) (ewm_mean span close) /\
  Forall (within (lo - hi) (hi - lo)) (macd_line close) /\
  Forall (within (lo - hi) (hi - lo)) (ewm_mean 9 (macd_line close)).
Proof.
  intros Hs Hall.
  assert (Hm : Forall (within (lo - hi) (hi - lo)) (macd_line close)).
  { unfold macd_line. apply map2_minus_within; apply ewm_mean_within;
      try exact Hall; lra. }
  split; [apply ewm_mean_within; assumption|]. split; [exact Hm|].
  apply ewm_mean_within; [lra|exact Hm].
Qed.

(** [ema_within_price_range] on the closes 100, 110 with span 12. *)
Lemma ema_within_price_range_witness :
  Forall (within 100 110) (ewm_mean 12 [100; 110]) /\
  Forall (within (100 - 110) (110 - 100)) (macd_line [100; 110]) /\
  Forall (within (100 - 110) (110 - 100)) (ewm_mean 9 (macd_line [100; 110])).
Proof.
  apply (ema_within_price_range 12 100 110 [100; 110]).
  - lra.
  - repeat constructor; cbn; discriminate.
Defined.

Lemma Qnat_S n : Qnat (S n) == 1 + Qnat n.
Proof.
  unfold Qnat. rewrite Nat2Z.inj_succ. unfold Z.succ.
  rewrite inject_Z_plus. cbn. ring.
Qed.

Lemma Qsum_within lo hi xs :
  Forall (within lo hi) xs ->
  Qnat (List.length xs) * lo <= Qsum xs /\ Qsum xs <= Qnat (List.length xs) * hi.
Proof.
  induction 1 as [|x xs [Hx1 Hx2] _ [IH1 IH2]].
  - change (0 * lo <= 0 /\ 0 <= 0 * hi). split; lra.
  - cbn [List.length]. change (Qsum (x :: xs)) with (x + Qsum xs).
    pose proof (Qnat_S (List.length xs)) as E.
    assert (E1 : Qnat (S (List.length xs)) * lo == lo + Qnat (List.length xs) * lo)
      by (rewrite E; ring).
    assert (E2 : Qnat (S (List.length xs)) * hi == hi + Qnat (List.length xs) * hi)
      by (rewrite E; ring).
    split; lra.
Qed.

(** A simple moving average, where it is defined, lies within the range
    of the closes: this holds for the MA20, MA50 and BB_middle columns. *)
Theorem sma_within_price_range w lo hi close i a :
  (0 < w)%nat ->
  Forall (within lo hi) close ->
  nth_error (rolling_mean w close) i = Some (Fin a) ->
  within lo hi a.
Proof.
  intros Hw Hall Ha. apply rolling_mean_fin in Ha.
  destruct Ha as (Hi & Hwi & ->).
  pose proof (Qsum_within lo hi _ (Forall_window _ w close i Hall)) as [H1 H2].
  rewrite (window_length w close i Hwi Hi) in H1, H2.
  pose proof (Qnat_pos w Hw) as Hp.
  split.
  - apply Qle_shift_div_l; [exact Hp|]. lra.
  - apply Qle_shift_div_r; [exact Hp|]. lra.
Qed.

(** [sma_within_price_range] on the rising closes 1..16 with window 14
    at index 13, where the mean is 105/14. *)
Lemma sma_within_price_range_witness : within 1 16 (105 # 14).
Proof.
  apply (sma_within_price_range 14 1 16 rising_prices 13 (105 # 14)).
  - lia.
  - repeat constructor; cbn; discriminate.
  - reflexivity.
Defined.

(** ** The Bollinger bands and the Sharpe ratio at their edges *)

Section BandsAndSharpeEdges.

Import RealStats.
Local Open Scope R_scope.

Lemma bb_warmup close i :
  (i < 19)%nat -> (i < List.length close)%nat ->
  nth_error (bb_middle close) i = Some None /\
  nth_error (bb_upper close) i = Some None /\
  nth_error (bb_lower close) i = Some None.
Proof.
  intros H19 Hi.
  assert (Hm : nth_error (bb_middle close) i = Some None).
  { unfold bb_middle. rewrite rolling_nth by exact Hi.
    replace (i + 1 <? 20)%nat with true by (symmetry; apply Nat.ltb_lt; lia).
    reflexivity. }
  assert (Hs : nth_error (bb_std close) i = Some None).
  { unfold bb_std. rewrite rolling_nth by exact Hi.
    replace (i + 1 <? 20)%nat with true by (symmetry; apply Nat.ltb_lt; lia).
    reflexivity. }
  split; [exact Hm|].
  unfold bb_upper, bb_lower.
  rewrite !map2_nth_error, !nth_error_map, Hm, Hs. split; reflexivity.
Qed.

(** On the first 19 rows the three Bollinger columns are NaN; from row
    19 on they are defined, the lower band is at most the middle, the
    middle at most the upper band, and the two bands are at the same
    distance from the middle. *)
Theorem bollinger_bands_ordered close i :
  (i < List.length close)%nat ->
  ((i < 19)%nat ->
   nth_error (bb_middle close) i = Some None /\
   nth_error (bb_upper close) i = Some None /\
   nth_error (bb_lower close) i = Some None) /\
  ((19 <= i)%nat ->
   exists lo mid up,
     nth_error (bb_lower close) i = Some (Some lo) /\
     nth_error (bb_middle close) i = Some (Some mid) /\
     nth_error (bb_upper close) i = Some (Some up) /\
     lo <= mid /\ mid <= up /\ up - mid = mid - lo).
Proof.
  intros Hi. split.
  - intros H19. apply bb_warmup; assumption.
  - intros H19. do 3 eexists.
    split; [apply bb_lower_nth; assumption|].
    split; [apply bb_middle_nth; assumption|].
    split; [apply bb_upper_nth; assumption|].
    pose proof (sqrt_pos (sum_sq_dev (window 20 close i)
                          / (INR (List.length (window 20 close i)) - INR 1)))
      as Hs.
    unfold std_ddof. split; [lra|]. split; lra.
Qed.

(** [bollinger_bands_ordered] on nineteen closes of 1 followed by 21. *)
Lemma bollinger_bands_ordered_witness :
  ((19 < 19)%nat ->
   nth_error (bb_middle closes_1_21) 19 = Some None /\
   nth_error (bb_upper closes_1_21) 19 = Some None /\
   nth_error (bb_lower closes_1_21) 19 = Some None) /\
  ((19 <= 19)%nat ->
   exists lo mid up,
     nth_error (bb_lower closes_1_21) 19 = Some (Some lo) /\
     nth_error (bb_middle closes_1_21) 19 = Some (Some mid) /\
     nth_error (bb_upper closes_1_21) 19 = Some (Some up) /\
     lo <= mid /\ mid <= up /\ up - mid = mid - lo).
Proof.
  apply (bollinger_bands_ordered closes_1_21 19). cbn. lia.
Defined.

Lemma pct_change_from_constant e n :
  pct_change_from e (repeat e n) = repeat 0 n.
Proof.
  induction n as [|n IH]; [reflexivity|].
  cbn [repeat pct_change_from]. rewrite IH. f_equal.
  unfold Rdiv. rewrite Rminus_diag. apply Rmult_0_l.
Qed.

Lemma Rsum_repeat_0 n : Rsum (repeat 0 n) = 0.
Proof.
  induction n as [|n IH]; [reflexivity|].
  cbn [repeat Rsum fold_right]. fold (Rsum (repeat 0 n)). rewrite IH. lra.
Qed.

Lemma std_of_zeros n : std_ddof 1 (repeat 0 n) = 0.
Proof.
  unfold std_ddof, sum_sq_dev, Rmean.
  rewrite Rsum_repeat_0. unfold Rdiv at 2. rewrite Rmult_0_l.
  rewrite map_repeat, Rminus_diag, Rmult_0_l, Rsum_repeat_0.
  unfold Rdiv. rewrite Rmult_0_l. apply sqrt_0.
Qed.

(** The Sharpe ratio at its edges. With at most one equity point there
    is no return and the ratio is 0; with exactly two equity points, the
    first of them not zero, the single return has no sample deviation and
    the ratio is NaN; on a constant equity curve of three or more points
    the ratio is 0. *)
Theorem sharpe_ratio_edges :
  (forall equity_series, (List.length equity_series <= 1)%nat ->
     sharpe_ratio equity_series = Some 0) /\
  (forall e0 e1, e0 <> 0 -> sharpe_ratio [e0; e1] = None) /\
  (forall e n, (3 <= n)%nat -> sharpe_ratio (repeat e n) = Some 0).
Proof.
  split; [|split].
  - intros eq Hlen. destruct eq as [|e0 [|e1 rest]]; [reflexivity|reflexivity|].
    cbn in Hlen. lia.
  - intros e0 e1 _. reflexivity.
  - intros e n Hn. destruct n as [|[|[|n]]]; try lia.
    unfold sharpe_ratio.
    change (daily_returns (repeat e (S (S (S n)))))
      with (pct_change_from e (repeat e (S (S n)))).
    rewrite (pct_change_from_constant e (S (S n))).
    unfold series_std. rewrite repeat_length. cbn [Nat.leb].
    rewrite std_of_zeros. cbn [repeat].
    destruct (Req_dec_T 0 0) as [_|Hne]; [reflexivity|contradiction].
Qed.

End BandsAndSharpeEdges.

Section SharpeEdgesWitness.

Import RealStats.
Local Open Scope R_scope.

(** [sharpe_ratio_edges] on the curves [1], [1; 2] and [5; 5; 5]. *)
Lemma sharpe_ratio_edges_witness :
  sharpe_ratio [1] = Some 0 /\
  sharpe_ratio [1; 2] = None /\
  sharpe_ratio (repeat 5 3) = Some 0.
Proof.
  destruct sharpe_ratio_edges as (H1 & H2 & H3).
  split; [apply H1; cbn; lia|]. split; [apply H2; lra|apply H3; lia].
Defined.

End SharpeEdgesWitness.

(** ** Reporting after a run *)

Lemma paired_sides ts :
  paired ts -> ts <> [] ->
  (0 < List.length (filter is_buy ts))%nat /\
  List.length (filter is_buy ts) = List.length (filter is_sell ts).
Proof.
  intros Hp Hne. pose proof (paired_counts _ Hp) as Hc. unfold count_side in Hc.
  split; [|exact Hc].
  destruct Hp as [|b s rest (Hb & _) _]; [contradiction|].
  cbn [filter]. unfold is_buy at 1. rewrite Hb. cbn. lia.
Qed.

Lemma run_with_trades_has_curve self s p eng' :
  run_strategy self s p = Ok eng' -> trades eng' <> [] ->
  equity_curve eng' <> [] /\ data eng' <> [].
Proof.
  intros Hrun Hne.
  assert (H2 : (2 <= List.length (data self))%nat).
  { destruct (Nat.le_gt_cases (List.length (data self)) 1) as [Hs|Hs]; [|lia].
    exfalso. apply Hne. eapply short_frame_no_trades; eassumption. }
  destruct (run_strategy_frame_inv _ _ _ _ Hrun) as [l Hfr].
  destruct (run_frame_last_point _ _ _ _ H2 Hfr) as (pts & pt & Hc & _).
  cbn [fst] in Hc. destruct (run_strategy_frame _ _ _ _ Hrun) as (Hd & _).
  split.
  - rewrite Hc. destruct pts; discriminate.
  - rewrite Hd. destruct (data self); [cbn in H2; lia|discriminate].
Qed.

Lemma plot_results_run self s p eng' :
  run_strategy self s p = Ok eng' ->
  (trades eng' = [] ->
   plot_results eng' =
     match equity_curve eng' with
     | [] => Ok None
     | _ :: _ => Raise KeyError
     end) /\
  (trades eng' <> [] ->
   exists price buy sell eq,
     plot_results eng' =
       Ok (Some {| fig_traces := [price; buy; sell; eq];
                   fig_hline := initial_capital self |}) /\
     map tr_name [price; buy; sell; eq] = ["Price"; "Buy"; "Sell"; "Equity"]%string /\
     List.length (tr_x price) = List.length (data self) /\
     List.length (tr_x eq) = List.length (equity_curve eng') /\
     List.length (tr_x buy) = List.length (tr_x sell)).
Proof.
  intros Hrun. split.
  - intros Ht. unfold plot_results. rewrite Ht.
    destruct (equity_curve eng'); reflexivity.
  - intros Hne.
    destruct (run_with_trades_has_curve _ _ _ _ Hrun Hne) as [Hc _].
    pose proof (run_strategy_paired _ _ _ _ Hrun) as Hp.
    destruct (paired_sides _ Hp Hne) as [Hb Hbs].
    destruct (run_strategy_frame _ _ _ _ Hrun) as (Hd & Hi).
    unfold plot_results.
    destruct (equity_curve eng') as [|p0 ps] eqn:Ec; [contradiction|].
    destruct (trades eng') as [|t0 ts] eqn:Et; [contradiction|].
    unfold marker_trace.
    replace (0 <? List.length (filter is_buy (t0 :: ts)))%nat with true
      by (symmetry; apply Nat.ltb_lt; exact Hb).
    replace (0 <? List.length (filter is_sell (t0 :: ts)))%nat with true
      by (symmetry; apply Nat.ltb_lt; rewrite <- Hbs; exact Hb).
    do 4 eexists. cbn [app]. rewrite Hi. split; [reflexivity|].
    split; [reflexivity|]. cbn [tr_x].
    rewrite !length_map, Hd. split; [reflexivity|]. split; [reflexivity|].
    exact Hbs.
Qed.

(** [plot_results] after a completed run. Without a trade it raises
    KeyError, or returns None when the equity curve is empty. With
    trades it returns a figure of exactly four traces, Price, Buy, Sell
    and Equity, in that order: the price trace has one point per bar, the
    equity trace one per equity point, and there are as many Buy markers
    as Sell markers. *)
Theorem plot_results_after_run self s p eng' :
  run_strategy self s p = Ok eng' ->
  (trades eng' = [] ->
   plot_results eng' =
     match equity_curve eng' with
     | [] => Ok None
     | _ :: _ => Raise KeyError
     end) /\
  (trades eng' <> [] ->
   exists price buy sell eq,
     plot_results eng' =
       Ok (Some {| fig_traces := [price; buy; sell; eq];
                   fig_hline := initial_capital self |}) /\
     map tr_name [price; buy; sell; eq] = ["Price"; "Buy"; "Sell"; "Equity"]%string /\
     List.length (tr_x price) = List.length (data self) /\
     List.length (tr_x eq) = List.length (equity_curve eng') /\
     List.length (tr_x buy) = List.length (tr_x sell)).
Proof. exact (plot_results_run self s p eng'). Qed.

(** [plot_results_after_run] on the run over the two bars 100, 110. *)
Lemma plot_results_after_run_witness :
  (trades after_100_110 = [] ->
   plot_results after_100_110 =
     match equity_curve after_100_110 with
     | [] => Ok None
     | _ :: _ => Raise KeyError
     end) /\
  (trades after_100_110 <> [] ->
   exists price buy sell eq,
     plot_results after_100_110 =
       Ok (Some {| fig_traces := [price; buy; sell; eq];
                   fig_hline := initial_capital (new_engine 100000 rows_100_110) |}) /\
     map tr_name [price; buy; sell; eq] = ["Price"; "Buy"; "Sell"; "Equity"]%string /\
     List.length (tr_x price) = List.length (data (new_engine 100000 rows_100_110)) /\
     List.length (tr_x eq) = List.length (equity_curve after_100_110) /\
     List.length (tr_x buy) = List.length (tr_x sell)).
Proof.
  apply (plot_results_after_run (new_engine 100000 rows_100_110)
           "MACD_CROSSOVER" [] after_100_110).
  reflexivity.
Defined.

Lemma calculate_metrics_ok self :
  equity_curve self <> [] -> trades self <> [] -> data self <> [] ->
  exists m, calculate_metrics self = Ok (Some m).
Proof.
  intros Hc Ht Hd. unfold calculate_metrics.
  destruct (equity_curve self); [contradiction|].
  destruct (trades self); [contradiction|].
  destruct (data self); [contradiction|].
  eexists. reflexivity.
Qed.

(** The backtesting page shows results exactly when the run traded.
    When the data loads and the selected strategy completes, a run
    without a trade ends in the error box with a KeyError, from
    [calculate_metrics] or from reading the empty metrics dict; a run
    with trades shows the metrics, a figure and the whole ledger. *)
Theorem page_shows_results_iff_traded cap bb_std bars strategy rows eng' :
  load_data bb_std bars = Ok rows ->
  run_strategy (new_engine cap rows) strategy [] = Ok eng' ->
  (trades eng' = [] ->
   render_backtesting cap bb_std bars strategy = BacktestError KeyError) /\
  (trades eng' <> [] ->
   exists m fig,
     calculate_metrics eng' = Ok (Some m) /\
     render_backtesting cap bb_std bars strategy =
       BacktestResults m (Some fig) (trades eng')).
Proof.
  intros Hload Hrun. unfold render_backtesting, loaded_engine.
  rewrite Hload. cbn [bind]. rewrite Hrun. cbn [bind]. split.
  - intros Ht. unfold calculate_metrics. rewrite Ht.
    destruct (equity_curve eng'); reflexivity.
  - intros Hne.
    destruct (run_with_trades_has_curve _ _ _ _ Hrun Hne) as [Hc Hd].
    destruct (calculate_metrics_ok _ Hc Hne Hd) as [m Hm].
    destruct (proj2 (plot_results_run _ _ _ _ Hrun) Hne)
      as (tp & tb & ts & te & Hplot & _).
    exists m. eexists. split; [exact Hm|].
    rewrite Hm. cbn [bind]. rewrite Hplot. cbn [bind].
    unfold get_trade_list. destruct (trades eng'); reflexivity.
Qed.

(** [page_shows_results_iff_traded] on the two bars 100, 110 with
    MACD_CROSSOVER, which trades. *)
Lemma page_shows_results_iff_traded_witness :
  (trades after_100_110 = [] ->
   render_backtesting 100000 (repeat NaN 2) bars_100_110 "MACD_CROSSOVER" =
     BacktestError KeyError) /\
  (trades after_100_110 <> [] ->
   exists m fig,
     calculate_metrics after_100_110 = Ok (Some m) /\
     render_backtesting 100000 (repeat NaN 2) bars_100_110 "MACD_CROSSOVER" =
       BacktestResults m (Some fig) (trades after_100_110)).
Proof.
  apply (page_shows_results_iff_traded 100000 (repeat NaN 2) bars_100_110
           "MACD_CROSSOVER" rows_100_110 after_100_110).
  - reflexivity.
  - reflexivity.
Defined.

(** ** A run without capital *)

Lemma walk_broke s p rest : forall prev self c,
  c <= 0 ->
  walk s p prev rest (self, idle_locals c) =
    Ok ({| initial_capital := initial_capital self; data := data self;
           trades := trades self;
           equity_curve := equity_curve self ++ map (idle_point c) rest |},
        idle_locals c).
Proof.
  induction rest as [|cur rest IH]; intros prev self c Hc.
  - cbn. rewrite app_nil_r. destruct self; reflexivity.
  - assert (Hlt : Qlt_bool 0 c = false).
    { destruct (Qlt_bool 0 c) eqn:E; [|reflexivity].
      apply Qlt_bool_true in E. lra. }
    cbn [walk]. unfold step, execute.
    cbn [fst snd position capital idle_locals Z.eqb].
    rewrite Hlt, !andb_false_r. cbn [bind fst snd position capital shares
      entry_price Z.eqb idle_locals].
    fold (idle_locals c). rewrite IH by exact Hc.
    cbn [append_equity initial_capital data trades equity_curve map].
    rewrite <- app_assoc. reflexivity.
Qed.

(** With an initial capital of zero or less no strategy ever trades and
    nothing is raised, on any frame: the ledger is empty and every bar
    after the first adds an equity point at that capital. *)
Theorem nonpositive_capital_runs_idle self s p :
  initial_capital self <= 0 ->
  run_strategy self s p = Ok (idle_result self).
Proof.
  intros Hc. unfold run_strategy, run_frame, run_walk, walk_bars, reset, idle_result.
  fold (idle_locals (initial_capital self)).
  destruct (data self) as [|first rest] eqn:Hd.
  - cbn. rewrite app_nil_r. unfold reset_trades. rewrite Hd. reflexivity.
  - rewrite (walk_broke s p rest first _ _ Hc). cbn. rewrite Hd. reflexivity.
Qed.

(** [nonpositive_capital_runs_idle] on the rows whose bar 1 closes at 0,
    with no capital. *)
Lemma nonpositive_capital_runs_idle_witness :
  run_strategy (new_engine 0 rows_zero_close) "RSI_OVERSOLD" [] =
    Ok (idle_result (new_engine 0 rows_zero_close)).
Proof.
  apply (nonpositive_capital_runs_idle (new_engine 0 rows_zero_close)
           "RSI_OVERSOLD" []).
  cbn. discriminate.
Defined.

(** ** Witnesses of two earlier lemmas *)

(** [forced_close_sells] on the two bars 100, 110 with MACD_CROSSOVER, a
    run that ends long. *)
Lemma forced_close_sells_witness :
  exists st,
    run_walk (new_engine 100000 rows_100_110) "MACD_CROSSOVER" [] = Ok st /\
    (position (snd st) = 1%Z ->
     exists t l',
       run_frame (new_engine 100000 rows_100_110) "MACD_CROSSOVER" [] =
         Ok (append_trade (fst st) t, l') /\
       t_type t = SELL /\
       t_price t = last (map Close (data (new_engine 100000 rows_100_110))) 0 /\
       t_shares t = shares (snd st) /\
       t_profit t =
         Some (inject_Z (shares (snd st)) * t_price t
               - inject_Z (shares (snd st)) * entry_price (snd st)) /\
       (exists l_sig,
          execute false true (t_date t) (t_price t) (fst st) (snd st) =
            Ok (append_trade (fst st) t, l_sig) /\
          capital l' = capital l_sig)) /\
    (position (snd st) <> 1%Z ->
     run_frame (new_engine 100000 rows_100_110) "MACD_CROSSOVER" [] = Ok st) /\
    (forall eng',
       run_strategy (new_engine 100000 rows_100_110) "MACD_CROSSOVER" [] = Ok eng' ->
       holdings (trades eng') = 0%Z).
Proof.
  apply (forced_close_sells (new_engine 100000 rows_100_110) "MACD_CROSSOVER" []).
  repeat constructor.
Defined.

(** [rerun_appends_curve] on the two bars 100, 110. *)
Lemma rerun_appends_curve_witness :
  run_strategy after_100_110 "MACD_CROSSOVER" [] =
    Ok (prepend_curve (equity_curve after_100_110) after_100_110).
Proof.
  apply (rerun_appends_curve (new_engine 100000 rows_100_110)
           "MACD_CROSSOVER" [] after_100_110).
  - reflexivity.
  - reflexivity.
Defined.
